(** * Vector-quantization image compressor (App.tsx, compressWithVectorQuantization)

    A shallow embedding of the colour-quantization engine of
    [src/datacompression11/App.tsx]: canvas resize, visible-pixel
    vectorization, K-means codebook generation, memoized reconstruction and
    the final size-based selection.

    Conventions.
    - JavaScript numbers that are integers in the program (channel values,
      sums of channel values, counts, squared distances, byte sizes) are [Z].
      All of them stay far below 2^53, so the double arithmetic of the source
      is exact on them.
    - The two places where the source leaves the integers are the division
      under [Math.round] and the percentage of the result; they are taken over
      the rationals [Q].
    - The [Math.random()] calls of the update loop are answered by an oracle
      [random : nat -> Q]: the k-th such call of an invocation returns
      [random k].  The call counter is threaded explicitly.
    - The browser services (image decoding, [drawImage], PNG encoding, and
      [sort] under a random comparator, whose order is left to the engine)
      are parameters. *)

From Stdlib Require Import ZArith QArith Qround Lia Ascii.
From stdpp Require Import base list gmap strings pretty.

Local Open Scope Z_scope.

(** ** VQ parameters (App.tsx 255-258) *)

Definition K : nat := 64.
Definition MAX_ITERATIONS : nat := 10.
Definition PIXEL_SAMPLE_SIZE : Z := 40000.
Definition MAX_DIMENSION : Z := 256.

(** ** Numeric primitives *)

(** [Math.round]: nearest integer, halves towards +infinity. *)
Definition Math_round (q : Q) : Z := Qfloor (q + (1 # 2))%Q.

(** [Math.floor]. *)
Definition Math_floor (q : Q) : Z := Qfloor q.

(** JavaScript [a / b] on two integers. *)
Definition js_div (a b : Z) : Q := (inject_Z a / inject_Z b)%Q.

(** Store into a [Uint8ClampedArray] of an integer value. *)
Definition toUint8Clamp (z : Z) : Z := Z.max 0 (Z.min 255 z).

Definition is_byte (z : Z) : Prop := 0 <= z <= 255.

(** ** 1. Pre-process: resize (App.tsx 264-276) *)

Definition resize (width height : Z) : Z * Z :=
  if height <? width then
    if MAX_DIMENSION <? width
    then (MAX_DIMENSION, Math_round (js_div (height * MAX_DIMENSION) width))
    else (width, height)
  else
    if MAX_DIMENSION <? height
    then (Math_round (js_div (width * MAX_DIMENSION) height), MAX_DIMENSION)
    else (width, height).

(** ** 2. Vectorization (App.tsx 283-289) *)

(** A colour vector: the three-element [number[]] of the source. *)
Definition color : Type := Z * Z * Z.

Definition red (c : color) : Z := c.1.1.
Definition green (c : color) : Z := c.1.2.
Definition blue (c : color) : Z := c.2.

(** [imgData] is the flat RGBA byte array of an [ImageData]; its length is
    always four times the pixel count, so the stride-4 loop is a recursion
    that takes four bytes at a time. *)
Fixpoint vectorize (imgData : list Z) : list color :=
  match imgData with
  | r :: g :: b :: a :: rest =>
      if 128 <? a then (r, g, b) :: vectorize rest else vectorize rest
  | _ => []
  end.

(** ** 3. Codebook generation (App.tsx 293-340) *)

Definition euclideanDistanceSq (v1 v2 : color) : Z :=
  (red v1 - red v2) ^ 2 + (green v1 - green v2) ^ 2 + (blue v1 - blue v2) ^ 2.

(** [distance < minDistance], where [None] stands for [Infinity]. *)
Definition below (distance : Z) (minDistance : option Z) : bool :=
  match minDistance with
  | None => true
  | Some m => distance <? m
  end.

(** The inner [for j] loop, entered at index [j] with the codebook entries
    from [j] on still to visit.  The same loop is written twice in the
    source (lines 304-312 and 353-361). *)
Fixpoint searchFrom (p : color) (rest : list color) (j : nat)
    (minDistance : option Z) (bestIndex : nat) : nat :=
  match rest with
  | [] => bestIndex
  | c :: rest' =>
      let distance := euclideanDistanceSq p c in
      if below distance minDistance
      then searchFrom p rest' (S j) (Some distance) j
      else searchFrom p rest' (S j) minDistance bestIndex
  end.

Definition nearestIndex (codebook : list color) (p : color) : nat :=
  searchFrom p codebook 0 None 0.

(** Assignment step: [assignments[i]] for every training pixel. *)
Definition assign (codebook trainingPixels : list color) : list nat :=
  map (nearestIndex codebook) trainingPixels.

Definition addPixel (pixel acc : color) : color :=
  (red acc + red pixel, green acc + green pixel, blue acc + blue pixel).

(** The accumulation loop (lines 318-325) over [newCodebook] and [counts]. *)
Fixpoint accumulate (trainingPixels : list color) (assignments : list nat)
    (newCodebook : list color) (counts : list Z) : list color * list Z :=
  match trainingPixels, assignments with
  | pixel :: tp, assignment :: asg =>
      accumulate tp asg
        (alter (addPixel pixel) assignment newCodebook)
        (alter Z.succ assignment counts)
  | _, _ => (newCodebook, counts)
  end.

(** [newCodebook[i].map(val => Math.round(val / counts[i]))] *)
Definition centroid (sums : color) (count : Z) : color :=
  (Math_round (js_div (red sums) count),
   Math_round (js_div (green sums) count),
   Math_round (js_div (blue sums) count)).

(** [d > 1e-4] *)
Definition aboveThreshold (d : Z) : bool :=
  negb (Qle_bool (inject_Z d) (1 # 10000)).

(** [counts[i] > 0]; an index outside [counts] reads [undefined], and
    [undefined > 0] is false. *)
Definition positiveCount (counts : list Z) (i : nat) : bool :=
  match counts !! i with
  | Some c => 0 <? c
  | None => false
  end.

Section Clusterer.

(** The k-th call of [Math.random()]. *)
Variable random : nat -> Q.

(** [trainingPixels[Math.floor(Math.random() * trainingPixels.length)]] *)
Definition randomIndex (trainingPixels : list color) (call : nat) : nat :=
  Z.to_nat (Math_floor
    (random call * inject_Z (Z.of_nat (length trainingPixels)))%Q).

(** State of the update loop: the codebook (updated in place),
    [hasChanged], and the number of [Math.random()] calls made so far. *)
Definition UpdateState : Type := list color * bool * nat.

(** Body of the update loop (lines 329-337) at index [i]. *)
Definition updateEntry (trainingPixels newCodebook : list color)
    (counts : list Z) (st : UpdateState) (i : nat) : UpdateState :=
  let '(codebook, hasChanged, calls) := st in
  if positiveCount counts i then
    let newCentroid := centroid (newCodebook !!! i) (counts !!! i) in
    let hasChanged' :=
      if aboveThreshold (euclideanDistanceSq newCentroid (codebook !!! i))
      then true else hasChanged in
    (<[i := newCentroid]> codebook, hasChanged', calls)
  else
    (<[i := trainingPixels !!! randomIndex trainingPixels calls]> codebook,
     hasChanged, S calls).

(** One pass of the [for iter] body, up to the [break] test. *)
Definition iteration (trainingPixels codebook : list color) (calls : nat)
  : UpdateState :=
  let assignments := assign codebook trainingPixels in
  let '(newCodebook, counts) :=
    accumulate trainingPixels assignments
      (replicate K (0, 0, 0)) (replicate K 0) in
  foldl (updateEntry trainingPixels newCodebook counts)
    (codebook, false, calls) (seq 0 (length codebook)).

(** The [for iter] loop with [iters] iterations left. *)
Fixpoint kmeansLoop (iters : nat) (trainingPixels codebook : list color)
    (calls : nat) : list color * nat :=
  match iters with
  | O => (codebook, calls)
  | S iters' =>
      let '(codebook', hasChanged, calls') :=
        iteration trainingPixels codebook calls in
      if hasChanged
      then kmeansLoop iters' trainingPixels codebook' calls'
      else (codebook', calls')
  end.

(** What one executed iteration saw and produced: the codebook and the
    number of [Math.random()] calls on entry, the codebook on exit and the
    value of [hasChanged] at the [break] test. *)
Record IterationRecord := {
  codebookBefore : list color;
  callsBefore : nat;
  codebookAfter : list color;
  changed : bool
}.

(** The executed iterations of the [for iter] loop, in order. *)
Fixpoint kmeansTrace (iters : nat) (trainingPixels codebook : list color)
    (calls : nat) : list IterationRecord :=
  match iters with
  | O => []
  | S iters' =>
      let '(codebook', hasChanged, calls') :=
        iteration trainingPixels codebook calls in
      {| codebookBefore := codebook; callsBefore := calls;
         codebookAfter := codebook'; changed := hasChanged |} ::
      (if hasChanged
       then kmeansTrace iters' trainingPixels codebook' calls'
       else [])
  end.

(** [trainingPixels.slice(0, K).map(p => [...p])] followed by the loop. *)
Definition generateCodebook (trainingPixels : list color) : list color :=
  (kmeansLoop MAX_ITERATIONS trainingPixels (take K trainingPixels) 0%nat).1.

(** The iterations executed by [generateCodebook]. *)
Definition clusteringTrace (trainingPixels : list color)
  : list IterationRecord :=
  kmeansTrace MAX_ITERATIONS trainingPixels (take K trainingPixels) 0%nat.

(** The number of [Math.random()] calls made by [generateCodebook]. *)
Definition reseedCalls (trainingPixels : list color) : nat :=
  (kmeansLoop MAX_ITERATIONS trainingPixels (take K trainingPixels) 0%nat).2.

End Clusterer.

(** ** 4. Reconstruction (App.tsx 342-369) *)

(** The template string [`${r},${g},${b}`]. *)
Definition colorKey (r g b : Z) : string :=
  pretty r +:+ "," +:+ pretty g +:+ "," +:+ pretty b.

(** The reconstruction loop with its [pixelMap] cache; the result is the
    content written to [newImageData.data]. *)
Fixpoint reconstruct (codebook : list color) (imgData : list Z)
    (pixelMap : gmap string color) : list Z :=
  match imgData with
  | r :: g :: b :: a :: rest =>
      let originalColorKey := colorKey r g b in
      let '(finalColor, pixelMap') :=
        match pixelMap !! originalColorKey with
        | Some cached => (cached, pixelMap)
        | None =>
            let found := codebook !!! nearestIndex codebook (r, g, b) in
            (found, <[originalColorKey := found]> pixelMap)
        end in
      toUint8Clamp (red finalColor) :: toUint8Clamp (green finalColor)
        :: toUint8Clamp (blue finalColor) :: toUint8Clamp a
        :: reconstruct codebook rest pixelMap'
  | _ => []
  end.

(** ** 5. Encode and decide (App.tsx 372-399) *)

Inductive MimeType := image_jpeg | image_png.

(** A data URL: the MIME tag and the bytes its base64 payload decodes to. *)
Record DataUrl := { url_mime : MimeType; url_payload : list Z }.

(** [atob(url.split(',')[1]).length] *)
Definition atob_length (u : DataUrl) : Z := Z.of_nat (length (url_payload u)).

Record CompressionStats := {
  originalSize : Z;
  compressedSize : Z;
  reductionPercentage : Q
}.

Record VQResult := {
  finalDataUrl : DataUrl;
  stats : CompressionStats;
  mimeType : MimeType;
  compressionApplied : bool
}.

Record File := { file_size : Z; file_type : MimeType }.

Definition select (file : File) (originalDataUrl vqCompressedDataUrl : DataUrl)
  : VQResult :=
  let originalSize := file_size file in
  let vqCompressedSize := atob_length vqCompressedDataUrl in
  if vqCompressedSize <? originalSize then
    {| finalDataUrl := vqCompressedDataUrl;
       stats := {| originalSize := originalSize;
                   compressedSize := vqCompressedSize;
                   reductionPercentage :=
                     ((inject_Z (originalSize - vqCompressedSize)
                       / inject_Z originalSize) * 100)%Q |};
       mimeType := image_png;
       compressionApplied := true |}
  else
    {| finalDataUrl := originalDataUrl;
       stats := {| originalSize := originalSize;
                   compressedSize := originalSize;
                   reductionPercentage := 0%Q |};
       mimeType := file_type file;
       compressionApplied := false |}.

(** ** The pipeline from the decoded pixel buffer on (App.tsx 283-399) *)

Inductive Rejection :=
  | CouldNotReadFileData
  | FailedToGetCanvasContext
  | EmptyImageError
  | FailedToLoadImage
  | FailedToReadFile.

Inductive Outcome :=
  | Resolved (result : VQResult)
  | Rejected (error : Rejection).

Section Pipeline.

Variable random : nat -> Q.
(** [[...pixels].sort(() => 0.5 - Math.random())]: the order is left to
    the engine. *)
Variable shuffle : list color -> list color.
(** [canvas.toDataURL('image/png')] for the given dimensions and content. *)
Variable toDataURL : Z -> Z -> list Z -> DataUrl.

Definition selectTraining (pixels : list color) : list color :=
  if PIXEL_SAMPLE_SIZE <? Z.of_nat (length pixels)
  then take (Z.to_nat PIXEL_SAMPLE_SIZE) (shuffle pixels)
  else pixels.

(** The quantized pixel buffer put back on the canvas. *)
Definition quantizedPixels (imgData : list Z) : list Z :=
  let trainingPixels := selectTraining (vectorize imgData) in
  reconstruct (generateCodebook random trainingPixels) imgData ∅.

Definition quantize (file : File) (originalDataUrl : DataUrl)
    (imgData : list Z) (imgWidth imgHeight : Z) : Outcome :=
  let pixels := vectorize imgData in
  if (length pixels =? 0)%nat then Rejected EmptyImageError
  else
    Resolved (select file originalDataUrl
                (toDataURL imgWidth imgHeight (quantizedPixels imgData))).

End Pipeline.

(** * Other functions of App.tsx *)

(** ** Values produced by [JSON.parse] *)

Unset Elimination Schemes.
Inductive JSON :=
  | JNull
  | JBool (b : bool)
  | JNumber (n : Q)
  | JString (s : string)
  | JArray (items : list JSON)
  | JObject (fields : list (string * JSON)).
Set Elimination Schemes.

(** Own property of a parsed object; the keys of a parsed object are
    distinct. *)
Fixpoint lookupField (fields : list (string * JSON)) (key : string)
  : option JSON :=
  match fields with
  | [] => None
  | (k, v) :: rest =>
      if decide (k = key) then Some v else lookupField rest key
  end.

(** [item.key] for one of the keys the program reads ([box], [label],
    [diagnosis], [diseaseName]).  The outer [None] is the [TypeError] of a
    property read on [null]; the inner [None] is [undefined].  Arrays,
    strings, numbers and booleans have no such property. *)
Definition getProperty (item : JSON) (key : string) : option (option JSON) :=
  match item with
  | JNull => None
  | JObject fields => Some (lookupField fields key)
  | _ => Some None
  end.

(** JavaScript truthiness of a possibly [undefined] value. *)
Definition truthy (v : option JSON) : bool :=
  match v with
  | None => false
  | Some JNull => false
  | Some (JBool b) => b
  | Some (JNumber n) => negb (Qeq_bool n 0)
  | Some (JString s) => negb (bool_decide (s = ""))
  | Some (JArray _) => true
  | Some (JObject _) => true
  end.

(** [Array.isArray(v)] *)
Definition isArray (v : option JSON) : bool :=
  match v with
  | Some (JArray _) => true
  | _ => false
  end.

(** [v.length === 4] for an array [v]. *)
Definition lengthIsFour (v : option JSON) : bool :=
  match v with
  | Some (JArray items) => bool_decide (length items = 4%nat)
  | _ => false
  end.

(** [typeof v === 'string'] *)
Definition isString (v : option JSON) : bool :=
  match v with
  | Some (JString _) => true
  | _ => false
  end.

(** ** getVisualExplanation: validation of the response (App.tsx 210-222) *)

(** The callback of [result.filter] (lines 214-216); [None] when it throws. *)
Definition keepBox (item : JSON) : option bool :=
  box ← getProperty item "box";
  if truthy box && isArray box && lengthIsFour box
  then label ← getProperty item "label"; Some (isString label)
  else Some false.

(** [result.filter(...)], callback applied from left to right; [None] when a
    call of the callback throws. *)
Fixpoint filterBoxes (items : list JSON) : option (list JSON) :=
  match items with
  | [] => Some []
  | item :: rest =>
      keep ← keepBox item;
      kept ← filterBoxes rest;
      Some (if keep : bool then item :: kept else kept)
  end.

(** The [try] block of [getVisualExplanation], given the outcome of
    [JSON.parse(response.text)] ([None] when parsing throws). *)
Definition getVisualExplanation (parsed : option JSON) : list JSON :=
  match parsed with
  | Some (JArray items) => default [] (filterBoxes items)
  | _ => []
  end.

(** ** Theme (App.tsx 800-819) *)

(** The initializer of the [theme] state: the stored value when
    [localStorage.getItem('theme')] is truthy, else the system preference. *)
Definition initialTheme (stored : option string) (prefersDark : bool)
  : string :=
  match stored with
  | Some s =>
      if bool_decide (s = "")
      then (if prefersDark then "dark" else "light")
      else s
  | None => if prefersDark then "dark" else "light"
  end.

(** [prevTheme => (prevTheme === 'dark' ? 'light' : 'dark')] *)
Definition toggleTheme (prevTheme : string) : string :=
  if bool_decide (prevTheme = "dark") then "light" else "dark".

(** ** The upload handler (App.tsx 790-888, 913) *)

(** [File.name] and [File.type] of the selected file. *)
Record UploadedFile := { upload_name : string; upload_type : string }.

Record ProcessedImage := { image_dataUrl : DataUrl; image_name : string }.

(** The state variables of [App] that the handler writes (lines 791-799);
    [errorMessage] is the [error] state and [compressionAppliedState] the
    [compressionApplied] state.  [None] is [null]. *)
Record AppState := {
  isLoading : bool;
  isLoadingExplanation : bool;
  errorMessage : option string;
  originalImage : option ProcessedImage;
  processedImage : option ProcessedImage;
  compressionStats : option CompressionStats;
  analysisResult : option JSON;
  visualExplanation : option (list JSON);
  compressionAppliedState : bool
}.

(** The state setters. *)
Definition setIsLoading (value : bool) (st : AppState) : AppState :=
  {| isLoading := value;
     isLoadingExplanation := isLoadingExplanation st;
     errorMessage := errorMessage st;
     originalImage := originalImage st;
     processedImage := processedImage st;
     compressionStats := compressionStats st;
     analysisResult := analysisResult st;
     visualExplanation := visualExplanation st;
     compressionAppliedState := compressionAppliedState st |}.

Definition setIsLoadingExplanation (value : bool) (st : AppState) : AppState :=
  {| isLoading := isLoading st;
     isLoadingExplanation := value;
     errorMessage := errorMessage st;
     originalImage := originalImage st;
     processedImage := processedImage st;
     compressionStats := compressionStats st;
     analysisResult := analysisResult st;
     visualExplanation := visualExplanation st;
     compressionAppliedState := compressionAppliedState st |}.

Definition setError (value : option string) (st : AppState) : AppState :=
  {| isLoading := isLoading st;
     isLoadingExplanation := isLoadingExplanation st;
     errorMessage := value;
     originalImage := originalImage st;
     processedImage := processedImage st;
     compressionStats := compressionStats st;
     analysisResult := analysisResult st;
     visualExplanation := visualExplanation st;
     compressionAppliedState := compressionAppliedState st |}.

Definition setOriginalImage (value : option ProcessedImage) (st : AppState) : AppState :=
  {| isLoading := isLoading st;
     isLoadingExplanation := isLoadingExplanation st;
     errorMessage := errorMessage st;
     originalImage := value;
     processedImage := processedImage st;
     compressionStats := compressionStats st;
     analysisResult := analysisResult st;
     visualExplanation := visualExplanation st;
     compressionAppliedState := compressionAppliedState st |}.

Definition setProcessedImage (value : option ProcessedImage) (st : AppState) : AppState :=
  {| isLoading := isLoading st;
     isLoadingExplanation := isLoadingExplanation st;
     errorMessage := errorMessage st;
     originalImage := originalImage st;
     processedImage := value;
     compressionStats := compressionStats st;
     analysisResult := analysisResult st;
     visualExplanation := visualExplanation st;
     compressionAppliedState := compressionAppliedState st |}.

Definition setCompressionStats (value : option CompressionStats) (st : AppState) : AppState :=
  {| isLoading := isLoading st;
     isLoadingExplanation := isLoadingExplanation st;
     errorMessage := errorMessage st;
     originalImage := originalImage st;
     processedImage := processedImage st;
     compressionStats := value;
     analysisResult := analysisResult st;
     visualExplanation := visualExplanation st;
     compressionAppliedState := compressionAppliedState st |}.

Definition setAnalysisResult (value : option JSON) (st : AppState) : AppState :=
  {| isLoading := isLoading st;
     isLoadingExplanation := isLoadingExplanation st;
     errorMessage := errorMessage st;
     originalImage := originalImage st;
     processedImage := processedImage st;
     compressionStats := compressionStats st;
     analysisResult := value;
     visualExplanation := visualExplanation st;
     compressionAppliedState := compressionAppliedState st |}.

Definition setVisualExplanation (value : option (list JSON)) (st : AppState) : AppState :=
  {| isLoading := isLoading st;
     isLoadingExplanation := isLoadingExplanation st;
     errorMessage := errorMessage st;
     originalImage := originalImage st;
     processedImage := processedImage st;
     compressionStats := compressionStats st;
     analysisResult := analysisResult st;
     visualExplanation := value;
     compressionAppliedState := compressionAppliedState st |}.

Definition setCompressionApplied (value : bool) (st : AppState) : AppState :=
  {| isLoading := isLoading st;
     isLoadingExplanation := isLoadingExplanation st;
     errorMessage := errorMessage st;
     originalImage := originalImage st;
     processedImage := processedImage st;
     compressionStats := compressionStats st;
     analysisResult := analysisResult st;
     visualExplanation := visualExplanation st;
     compressionAppliedState := value |}.

(** [resetState] (lines 821-829) *)
Definition resetState (st : AppState) : AppState :=
  setCompressionApplied false
    (setVisualExplanation None
       (setAnalysisResult None
          (setCompressionStats None
             (setProcessedImage None
                (setOriginalImage None (setError None st)))))).

(** The messages of the rejections of [compressWithVectorQuantization]. *)
Definition rejectionMessage (e : Rejection) : string :=
  match e with
  | CouldNotReadFileData => "Could not read file data."
  | FailedToGetCanvasContext => "Failed to get canvas context"
  | EmptyImageError => "Image appears to be empty or fully transparent."
  | FailedToLoadImage =>
      "Failed to load image for Vector Quantization. The file may be corrupt."
  | FailedToReadFile => "Failed to read the selected file."
  end.

(** A thrown value: an [Error] with its message, or anything else. *)
Inductive Thrown :=
  | ErrorObject (message : string)
  | OtherValue.

(** The [catch] block of the handler (lines 881-887). *)
Definition processingFailed (err : Thrown) (st : AppState) : AppState :=
  let errorMessage :=
    match err with
    | ErrorObject message => message
    | OtherValue => "An unknown error occurred."
    end in
  setIsLoadingExplanation false
    (setIsLoading false
       (setError
          (Some ("An error occurred: " +:+ errorMessage
                 +:+ ". Please try again with a different image."))
          st)).

(** [result.diagnosis.diseaseName]; the outer [None] is a [TypeError]. *)
Definition readDiseaseName (result : JSON) : option (option JSON) :=
  diagnosis ← getProperty result "diagnosis";
  match diagnosis with
  | None => None
  | Some d => getProperty d "diseaseName"
  end.

(** [name !== 'Healthy'] *)
Definition notHealthy (name : option JSON) : bool :=
  match name with
  | Some (JString s) => negb (bool_decide (s = "Healthy"))
  | _ => true
  end.

Section Handler.

(** The message of the engine's [TypeError] for a property read on [null]
    or [undefined]. *)
Variable typeErrorMessage : string.

(** The state once the handler and the reader it starts have run to their
    end, given how each asynchronous step settles:
    - [originalRead]: the data URL delivered to [originalReader.onload], if
      that read succeeds;
    - [compression]: how [compressWithVectorQuantization(file)] settles;
    - [analysis]: the value [analyzeImageWithGemini] resolves to, or what it
      throws;
    - [explanation]: for the request of [getVisualExplanation], the outcome
      of parsing its response, or [None] when the request itself fails. *)
Definition handleFileSelect (st : AppState) (file : UploadedFile)
    (originalRead : option DataUrl) (compression : Outcome)
    (analysis : JSON + Thrown) (explanation : option (option JSON))
  : AppState :=
  if negb (String.prefix "image/" (upload_type file))
  then setError (Some "Invalid file type. Please upload an image.") st
  else
    let st := resetState (setIsLoadingExplanation false (setIsLoading true st)) in
    let st :=
      match originalRead with
      | Some url =>
          setOriginalImage
            (Some {| image_dataUrl := url; image_name := upload_name file |})
            st
      | None => st
      end in
    match compression with
    | Rejected e => processingFailed (ErrorObject (rejectionMessage e)) st
    | Resolved r =>
        let st :=
          setCompressionApplied (compressionApplied r)
            (setCompressionStats (Some (stats r))
               (setProcessedImage
                  (Some {| image_dataUrl := finalDataUrl r;
                           image_name :=
                             if compressionApplied r
                             then "vq_" +:+ upload_name file
                             else upload_name file |})
                  st)) in
        match analysis with
        | inr thrown => processingFailed thrown st
        | inl result =>
            let st := setIsLoading false (setAnalysisResult (Some result) st) in
            match readDiseaseName result with
            | None => processingFailed (ErrorObject typeErrorMessage) st
            | Some name =>
                if notHealthy name then
                  let st := setIsLoadingExplanation true st in
                  let st :=
                    match explanation with
                    | Some parsed =>
                        setVisualExplanation
                          (Some (getVisualExplanation parsed)) st
                    | None => st
                    end in
                  setIsLoadingExplanation false st
                else st
            end
        end
    end.

End Handler.

(** The initial values of the state variables (lines 791-799). *)
Definition initialState : AppState :=
  {| isLoading := false;
     isLoadingExplanation := false;
     errorMessage := None;
     originalImage := None;
     processedImage := None;
     compressionStats := None;
     analysisResult := None;
     visualExplanation := None;
     compressionAppliedState := false |}.

(** The condition under which the results panel is rendered (line 913). *)
Definition showResults (st : AppState) : bool :=
  negb (isLoading st) && truthy (analysisResult st)
  && bool_decide (is_Some (compressionStats st))
  && bool_decide (is_Some (originalImage st))
  && bool_decide (is_Some (processedImage st)).

(** * Specification vocabulary *)

(** A bounding-box item as the overlay expects it: an object whose [box] is
    an array of four elements and whose [label] is a string. *)
Definition wellFormedBox (item : JSON) : Prop :=
  exists fields box label,
    item = JObject fields /\
    lookupField fields "box" = Some (JArray box) /\
    length box = 4%nat /\
    lookupField fields "label" = Some (JString label).

(** Boolean form of [wellFormedBox]. *)
Definition boxShaped (item : JSON) : bool :=
  match item with
  | JObject fields =>
      match lookupField fields "box", lookupField fields "label" with
      | Some (JArray box), Some (JString _) =>
          bool_decide (length box = 4%nat)
      | _, _ => false
      end
  | _ => false
  end.


(** [i] is the lowest index of [codebook] whose entry is at minimal squared
    distance from [p]. *)
Definition firstMinimum (p : color) (codebook : list color) (i : nat) : Prop :=
  exists c, codebook !! i = Some c /\
    (forall j c', codebook !! j = Some c' ->
       euclideanDistanceSq p c <= euclideanDistanceSq p c') /\
    (forall j c', (j < i)%nat -> codebook !! j = Some c' ->
       euclideanDistanceSq p c < euclideanDistanceSq p c').

(** Loop invariant of the search after the entries [visited] have been seen. *)
Definition searchInv (p : color) (visited : list color)
    (minDistance : option Z) (bestIndex : nat) : Prop :=
  match minDistance with
  | None => visited = []
  | Some m =>
      exists c, visited !! bestIndex = Some c /\
        m = euclideanDistanceSq p c /\
        (forall j c', visited !! j = Some c' -> m <= euclideanDistanceSq p c') /\
        (forall j c', (j < bestIndex)%nat -> visited !! j = Some c' ->
           m < euclideanDistanceSq p c')
  end.

(** Sum of one channel over a list of vectors. *)
Definition sumOf (channel : color -> Z) (l : list color) : Z :=
  foldr (fun p acc => channel p + acc) 0 l.

(** Component-wise sum of a list of vectors. *)
Definition vectorSum (l : list color) : color :=
  (sumOf red l, sumOf green l, sumOf blue l).

(** The training vectors whose assignment is codebook index [i]. *)
Definition assignedTo (codebook trainingPixels : list color) (i : nat)
  : list color :=
  filter (fun p => nearestIndex codebook p = i) trainingPixels.

(** Component-wise mean of a list of vectors, rounded to an integer. *)
Definition roundedMean (l : list color) : color :=
  (Math_round (js_div (sumOf red l) (Z.of_nat (length l))),
   Math_round (js_div (sumOf green l) (Z.of_nat (length l))),
   Math_round (js_div (sumOf blue l) (Z.of_nat (length l)))).

(** Entry [i] has assigned vectors and its centroid lies more than the
    threshold away from the current entry. *)
Definition movedAt (newCodebook : list color) (counts : list Z)
    (codebook : list color) (i : nat) : bool :=
  positiveCount counts i &&
  aboveThreshold
    (euclideanDistanceSq (centroid (newCodebook !!! i) (counts !!! i))
       (codebook !!! i)).

(** [Math.random()] returns a value in the half-open unit interval. *)
Definition unitInterval (random : nat -> Q) : Prop :=
  forall k, (0 <= random k)%Q /\ (random k < 1)%Q.

(** Entry [i] of the codebook moved by more than the threshold during the
    update step of the iteration recorded in [rec]. *)
Definition entryMoved (rec : IterationRecord) (i : nat) : Prop :=
  exists c c', codebookBefore rec !! i = Some c /\
    codebookAfter rec !! i = Some c' /\
    (1 # 10000 < inject_Z (euclideanDistanceSq c' c))%Q.

(** C5 as stated: iteration [t] is the last one exactly when no entry at all
    moved, or the cap is reached. *)
Definition exitsWhenNoEntryMoved (random : nat -> Q)
    (trainingPixels : list color) : Prop :=
  forall t rec, clusteringTrace random trainingPixels !! t = Some rec ->
    length (clusteringTrace random trainingPixels) = S t <->
    (~ exists i, entryMoved rec i) \/ S t = MAX_ITERATIONS.

(** The string contains no comma. *)
Fixpoint noComma (s : string) : Prop :=
  match s with
  | EmptyString => True
  | String a s' => a <> ","%char /\ noComma s'
  end.

(** The reconstruction written without the cache: a fresh nearest-entry
    search for every pixel. *)
Fixpoint reconstructNaive (codebook : list color) (imgData : list Z)
  : list Z :=
  match imgData with
  | r :: g :: b :: a :: rest =>
      let finalColor := codebook !!! nearestIndex codebook (r, g, b) in
      toUint8Clamp (red finalColor) :: toUint8Clamp (green finalColor)
        :: toUint8Clamp (blue finalColor) :: toUint8Clamp a
        :: reconstructNaive codebook rest
  | _ => []
  end.

(** Every cached colour is the one a fresh search would find. *)
Definition cacheSound (codebook : list color) (pixelMap : gmap string color)
  : Prop :=
  forall r g b c, pixelMap !! colorKey r g b = Some c ->
    c = codebook !!! nearestIndex codebook (r, g, b).

(** All three channels are bytes. *)
Definition byteColor (c : color) : Prop :=
  is_byte (red c) /\ is_byte (green c) /\ is_byte (blue c).

(** C9 as stated: with at most 40,000 visible pixels the quantized pixels do
    not depend on the random source. *)
Definition deterministicBelowSampleCap : Prop :=
  forall (random1 random2 : nat -> Q)
         (shuffle1 shuffle2 : list color -> list color) (imgData : list Z),
    unitInterval random1 -> unitInterval random2 ->
    Forall is_byte imgData ->
    Z.of_nat (length (vectorize imgData)) <= PIXEL_SAMPLE_SIZE ->
    quantizedPixels random1 shuffle1 imgData
    = quantizedPixels random2 shuffle2 imgData.

(** A 5 x 1 image: two opaque pixels (100,100,100), opaque (0,0,0), opaque
    (2,0,0) and a transparent (1,0,0).  The initial codebook has a duplicate,
    so entry 1 receives no vector and is reseeded.  With the draw 0 the final
    codebook is [a; a; b; c] and the transparent pixel maps to b = (0,0,0);
    with the draw 3/4 it is [a; c; b; c] and the pixel maps to c = (2,0,0). *)
Definition fiveByOne : list Z :=
  [100; 100; 100; 255;  100; 100; 100; 255;  0; 0; 0; 255;
   2; 0; 0; 255;  1; 0; 0; 0].

(** Every channel of [c] lies between the same channel of [lo] and [hi]. *)
Definition inBox (lo hi c : color) : Prop :=
  red lo <= red c <= red hi /\
  green lo <= green c <= green hi /\
  blue lo <= blue c <= blue hi.

(** * Properties *)

(** ** Arithmetic of the numeric primitives *)

Lemma Math_round_div (a b : Z) :
  0 < b -> Math_round (js_div a b) = (2 * a + b) / (2 * b).
Proof.
  intros Hb. unfold Math_round, js_div.
  destruct b as [|b|b]; try lia.
  assert (E : (inject_Z a / inject_Z (Z.pos b) + (1 # 2)
               == (2 * a + Z.pos b) # (2 * b))%Q).
  { unfold Qeq, Qdiv, Qinv, Qmult, Qplus, inject_Z. simpl. lia. }
  rewrite E. reflexivity.
Qed.

Lemma Math_round_div_bounds (a b lo hi : Z) :
  0 < b -> lo * b <= a <= hi * b -> lo <= Math_round (js_div a b) <= hi.
Proof.
  intros Hb [Hlo Hhi]. rewrite Math_round_div by done. split.
  - apply Z.div_le_lower_bound; nia.
  - apply Z.lt_succ_r, Z.div_lt_upper_bound; nia.
Qed.

Lemma aboveThreshold_pos (d : Z) : aboveThreshold d = true <-> 0 < d.
Proof.
  unfold aboveThreshold, Qle_bool. simpl.
  rewrite negb_true_iff, Z.leb_gt. lia.
Qed.

Lemma aboveThreshold_spec (d : Z) :
  aboveThreshold d = true <-> (1 # 10000 < inject_Z d)%Q.
Proof.
  unfold aboveThreshold. rewrite negb_true_iff, <- not_true_iff_false.
  rewrite Qle_bool_iff. split; [apply Qnot_le_lt | apply Qlt_not_le].
Qed.

Lemma toUint8Clamp_byte (z : Z) : is_byte z -> toUint8Clamp z = z.
Proof. unfold is_byte, toUint8Clamp. lia. Qed.

Example resize_small : resize 200 100 = (200, 100).
Proof. reflexivity. Qed.
Example resize_wide : resize 512 256 = (256, 128).
Proof. reflexivity. Qed.
Example resize_odd : resize 300 301 = (255, 256).
Proof. reflexivity. Qed.

(** ** Resize *)

(** What the resize does for positive native dimensions: nothing when both
    sides are within [MAX_DIMENSION]; otherwise the longer side becomes
    [MAX_DIMENSION] and the other one the rounded proportional value, which
    is never negative and never above [MAX_DIMENSION]. *)
Lemma resize_scaled (width height : Z) :
  0 < width -> 0 < height ->
  let '(w, h) := resize width height in
  (Z.max width height <= MAX_DIMENSION -> (w, h) = (width, height)) /\
  (MAX_DIMENSION < Z.max width height ->
     Z.max w h = MAX_DIMENSION /\
     Z.min w h = (2 * (Z.min width height * MAX_DIMENSION)
                  + Z.max width height) / (2 * Z.max width height)) /\
  0 <= w /\ 0 <= h /\ w * h <= 65536.
Proof.
  intros Hw Hh. unfold resize, MAX_DIMENSION.
  destruct (Z.ltb_spec height width) as [Hlt|Hle].
  - destruct (Z.ltb_spec 256 width) as [Hbig|Hsmall].
    + pose proof (Math_round_div_bounds (height * 256) width 0 256 Hw
                    ltac:(nia)) as Hb.
      rewrite (Math_round_div _ _ Hw) in *.
      rewrite (Z.max_l width height), (Z.min_r width height) by lia.
      repeat split; try lia; try nia.
    + repeat split; try lia; try nia.
  - destruct (Z.ltb_spec 256 height) as [Hbig|Hsmall].
    + pose proof (Math_round_div_bounds (width * 256) height 0 256 Hh
                    ltac:(nia)) as Hb.
      rewrite (Math_round_div _ _ Hh) in *.
      rewrite (Z.max_r width height), (Z.min_l width height) by lia.
      repeat split; try lia; try nia.
    + repeat split; try lia; try nia.
Qed.

(** The rounded side collapses to zero as soon as the aspect ratio exceeds
    512 : 1. *)
Lemma resize_collapses (width height : Z) :
  0 < height -> MAX_DIMENSION < width -> 512 * height < width ->
  resize width height = (MAX_DIMENSION, 0).
Proof.
  unfold resize, MAX_DIMENSION. intros Hh Hw Hratio.
  destruct (Z.ltb_spec height width) as [_|?]; [|lia].
  destruct (Z.ltb_spec 256 width) as [_|?]; [|lia].
  rewrite Math_round_div by lia. f_equal.
  apply Z.div_small. lia.
Qed.

(** C7 (the positivity part fails on the code). A 1000 x 1 image is resized
    to 256 x 0: the proportional height 0.256 rounds to zero, so the
    resulting buffer has no positive height. *)
Theorem resize_extreme_aspect_ratio :
  resize 1000 1 = (256, 0) /\ ~ (0 < (resize 1000 1).2).
Proof. split; [reflexivity | vm_compute; discriminate]. Qed.

(** ** Selector *)

(** C1. The selector returns the quantized PNG with
    [compressionApplied = true] and the percentage
    [(originalSize - compressedSize) / originalSize * 100] exactly when the
    PNG is strictly shorter than the original file; otherwise it returns the
    original data with [compressionApplied = false],
    [compressedSize = originalSize] and percentage 0.  In both cases
    [compressedSize <= originalSize]. *)
Theorem select_decision (file : File) (originalDataUrl vq : DataUrl) :
  let result := select file originalDataUrl vq in
  let o := file_size file in
  let v := atob_length vq in
  ((v < o /\
    finalDataUrl result = vq /\
    mimeType result = image_png /\
    compressionApplied result = true /\
    originalSize (stats result) = o /\
    compressedSize (stats result) = v /\
    reductionPercentage (stats result)
      = (inject_Z (o - v) / inject_Z o * 100)%Q)
   \/
   (o <= v /\
    finalDataUrl result = originalDataUrl /\
    mimeType result = file_type file /\
    compressionApplied result = false /\
    originalSize (stats result) = o /\
    compressedSize (stats result) = o /\
    reductionPercentage (stats result) = 0%Q))
  /\ compressionApplied result = (v <? o)
  /\ compressedSize (stats result) <= originalSize (stats result).
Proof.
  cbv zeta. unfold select.
  destruct (Z.ltb_spec (atob_length vq) (file_size file)) as [Hlt|Hge]; simpl.
  - split; [left; repeat split; done | split; [done | lia]].
  - split; [right; repeat split; done | split; [done | lia]].
Qed.

(** ** Stride-4 traversal of the pixel buffer *)

Lemma stride4_ind (P : list Z -> Prop) :
  (forall l, (length l < 4)%nat -> P l) ->
  (forall r g b a rest, P rest -> P (r :: g :: b :: a :: rest)) ->
  forall l, P l.
Proof.
  intros Hshort Hstep. fix IH 1.
  intros [|r [|g [|b [|a rest]]]]; try (apply Hshort; simpl; lia).
  apply Hstep, IH.
Qed.

Lemma lookup_stride4 (r g b a : Z) (rest : list Z) (p k : nat) :
  (r :: g :: b :: a :: rest) !! (4 * S p + k)%nat = rest !! (4 * p + k)%nat.
Proof. replace (4 * S p + k)%nat with (4 + (4 * p + k))%nat by lia. done. Qed.

(** No training vector is extracted exactly when no pixel has an alpha
    value above 128. *)
Lemma vectorize_nil_iff (imgData : list Z) :
  vectorize imgData = [] <->
  forall p a, imgData !! (4 * p + 3)%nat = Some a -> a <= 128.
Proof.
  induction imgData as [l Hshort | r g b a rest IH] using stride4_ind.
  - split.
    + intros _ p a Hl. apply lookup_lt_Some in Hl. lia.
    + intros _. by destruct l as [|? [|? [|? [|? ?]]]]; simpl in *; try lia.
  - cbn [vectorize]. destruct (Z.ltb_spec 128 a) as [Hvis|Hinv].
    + split; [done|]. intros H. specialize (H 0%nat a eq_refl). lia.
    + rewrite IH. split.
      * intros H [|p] x Hl.
        -- simpl in Hl. by simplify_eq.
        -- rewrite lookup_stride4 in Hl. eauto.
      * intros H p x Hl. apply (H (S p)). by rewrite lookup_stride4.
Qed.

(** ** Rejection of images without visible pixels *)

(** C8. From the decoded buffer on, the pipeline rejects with the
    empty-image error if and only if no pixel has an alpha value strictly
    above 128; it has no other failure, and a rejection carries no
    compression result. *)
Theorem empty_image_rejection (random : nat -> Q)
    (shuffle : list color -> list color) (toDataURL : Z -> Z -> list Z -> DataUrl)
    (file : File) (originalDataUrl : DataUrl) (imgData : list Z)
    (imgWidth imgHeight : Z) :
  let outcome :=
    quantize random shuffle toDataURL file originalDataUrl imgData
      imgWidth imgHeight in
  (outcome = Rejected EmptyImageError <->
   forall p a, imgData !! (4 * p + 3)%nat = Some a -> a <= 128) /\
  (forall e, outcome = Rejected e ->
     e = EmptyImageError /\ forall result, outcome <> Resolved result).
Proof.
  cbv zeta. unfold quantize. rewrite <- vectorize_nil_iff.
  destruct (vectorize imgData) as [|c pixels]; simpl.
  - split; [done|]. intros e [= <-]. done.
  - split; [split; intros; done|]. intros e [=].
Qed.

(** ** Nearest-entry search *)

Lemma searchInv_step (p c : color) (visited : list color)
    (minDistance : option Z) (bestIndex : nat) :
  searchInv p visited minDistance bestIndex ->
  let distance := euclideanDistanceSq p c in
  if below distance minDistance
  then searchInv p (visited ++ [c]) (Some distance) (length visited)
  else searchInv p (visited ++ [c]) minDistance bestIndex.
Proof.
  intros Hinv distance. unfold below.
  destruct minDistance as [m|]; simpl in *.
  - destruct Hinv as (c0 & Hc0 & -> & Hle & Hlt).
    destruct (Z.ltb_spec distance (euclideanDistanceSq p c0)) as [Hd|Hd].
    + exists c. split; [by rewrite lookup_app_r, Nat.sub_diag by lia|].
      split; [done|]. split.
      * intros j c' Hj. apply lookup_app_Some in Hj as [Hj|[_ Hj]].
        -- specialize (Hle _ _ Hj). lia.
        -- apply list_lookup_singleton_Some in Hj as [_ <-]. done.
      * intros j c' Hjlt Hj. rewrite lookup_app_l in Hj by done.
        specialize (Hle _ _ Hj). lia.
    + exists c0. split; [by apply lookup_app_l_Some|]. split; [done|]. split.
      * intros j c' Hj. apply lookup_app_Some in Hj as [Hj|[_ Hj]]; [eauto|].
        apply list_lookup_singleton_Some in Hj as [_ <-]. done.
      * intros j c' Hjlt Hj. apply lookup_lt_Some in Hc0.
        rewrite lookup_app_l in Hj by lia. eauto.
  - subst visited. exists c. repeat split; try done.
    + intros j c' Hj. apply list_lookup_singleton_Some in Hj as [_ <-]. done.
    + intros j c' Hjlt. simpl in Hjlt. lia.
Qed.

Lemma searchFrom_inv (p : color) (rest visited : list color)
    (minDistance : option Z) (bestIndex : nat) :
  searchInv p visited minDistance bestIndex ->
  exists m,
    searchInv p (visited ++ rest) m
      (searchFrom p rest (length visited) minDistance bestIndex)
    /\ (rest <> [] -> m <> None) /\ (minDistance <> None -> m <> None).
Proof.
  revert visited minDistance bestIndex.
  induction rest as [|c rest IH]; intros visited minDistance bestIndex Hinv.
  - exists minDistance. rewrite app_nil_r. done.
  - pose proof (searchInv_step p c _ _ _ Hinv) as Hstep. cbv zeta in Hstep.
    cbn [searchFrom].
    destruct (below (euclideanDistanceSq p c) minDistance) eqn:Hbelow.
    + destruct (IH _ _ _ Hstep) as (m & Hm & _ & Hsome).
      rewrite length_app, Nat.add_1_r, <- app_assoc in Hm.
      exists m. split; [done|]. split; intros _; by apply Hsome.
    + destruct (IH _ _ _ Hstep) as (m & Hm & _ & Hsome).
      rewrite length_app, Nat.add_1_r, <- app_assoc in Hm.
      exists m. split; [done|]. split; [|done].
      intros _. apply Hsome. by destruct minDistance.
Qed.

(** On a non-empty codebook the search returns the first minimum. *)
Lemma nearestIndex_firstMinimum (codebook : list color) (p : color) :
  codebook <> [] -> firstMinimum p codebook (nearestIndex codebook p).
Proof.
  intros Hne. unfold nearestIndex.
  destruct (searchFrom_inv p codebook [] None 0%nat eq_refl)
    as (m & Hm & Hsome & _).
  simpl in Hm. destruct m as [m|]; [|by destruct (Hsome Hne)].
  destruct Hm as (c & Hc & -> & Hle & Hlt). exists c. done.
Qed.

Lemma nearestIndex_lt (codebook : list color) (p : color) :
  codebook <> [] -> (nearestIndex codebook p < length codebook)%nat.
Proof.
  intros Hne. destruct (nearestIndex_firstMinimum codebook p Hne) as (c & Hc & _).
  by apply lookup_lt_Some in Hc.
Qed.

(** The first minimum is unique, so the search is determined by it. *)
Lemma firstMinimum_unique (p : color) (codebook : list color) (i j : nat) :
  firstMinimum p codebook i -> firstMinimum p codebook j -> i = j.
Proof.
  intros (ci & Hi & Hile & Hilt) (cj & Hj & Hjle & Hjlt).
  destruct (Nat.lt_trichotomy i j) as [Hlt|[->|Hlt]]; [|done|].
  - specialize (Hjlt _ _ Hlt Hi). specialize (Hile _ _ Hj). lia.
  - specialize (Hilt _ _ Hlt Hj). specialize (Hjle _ _ Hi). lia.
Qed.

(** ** Accumulation of sums and counts *)

Lemma accumulate_spec (f : color -> nat) (trainingPixels : list color)
    (newCodebook : list color) (counts : list Z) :
  let '(sums, counts') :=
    accumulate trainingPixels (map f trainingPixels) newCodebook counts in
  (forall i,
     sums !! i
     = (fun s => (red s + sumOf red (filter (fun p => f p = i) trainingPixels),
                  green s + sumOf green (filter (fun p => f p = i) trainingPixels),
                  blue s + sumOf blue (filter (fun p => f p = i) trainingPixels)))
       <$> newCodebook !! i) /\
  (forall i,
     counts' !! i
     = (fun c => c + Z.of_nat (length (filter (fun p => f p = i) trainingPixels)))
       <$> counts !! i).
Proof.
  revert newCodebook counts.
  induction trainingPixels as [|pixel tp IH]; intros newCodebook counts.
  - simpl. split; intros i.
    + destruct (newCodebook !! i) as [[[r g] b]|]; simpl; [|done].
      unfold red, green, blue; simpl. do 2 f_equal; [f_equal|]; lia.
    + destruct (counts !! i) as [c|]; simpl; [f_equal; lia | done].
  - cbn [map accumulate].
    specialize (IH (alter (addPixel pixel) (f pixel) newCodebook)
                   (alter Z.succ (f pixel) counts)).
    destruct (accumulate tp (map f tp) _ _) as [sums counts'].
    destruct IH as [IHs IHc]. split; intros i.
    + rewrite IHs, filter_cons, list_lookup_alter.
      destruct (decide (f pixel = i)) as [<-|Hne]; [|done].
      destruct (newCodebook !! f pixel) as [[[r g] b]|]; simpl; [|done].
      unfold addPixel, red, green, blue; simpl. do 2 f_equal; [f_equal|]; lia.
    + rewrite IHc, filter_cons, list_lookup_alter.
      destruct (decide (f pixel = i)) as [<-|Hne]; [|done].
      destruct (counts !! f pixel) as [c|]; simpl; [f_equal; lia | done].
Qed.

(** The accumulators of one iteration, read at a codebook index below [K]. *)
Lemma accumulate_assigned (codebook trainingPixels : list color) (i : nat) :
  (i < K)%nat ->
  let acc :=
    accumulate trainingPixels (assign codebook trainingPixels)
      (replicate K (0, 0, 0)) (replicate K 0) in
  acc.1 !! i = Some (vectorSum (assignedTo codebook trainingPixels i)) /\
  acc.2 !! i
  = Some (Z.of_nat (length (assignedTo codebook trainingPixels i))).
Proof.
  intros Hi. cbv zeta. unfold assign.
  pose proof (accumulate_spec (nearestIndex codebook) trainingPixels
                (replicate K (0, 0, 0)) (replicate K 0)) as Hacc.
  destruct (accumulate _ _ _ _) as [sums counts].
  destruct Hacc as [Hs Hc]. split; simpl.
  - rewrite Hs, lookup_replicate_2 by done. done.
  - rewrite Hc, lookup_replicate_2 by done. done.
Qed.

(** ** The update loop *)

Section UpdateLoop.

Variable random : nat -> Q.
Variables (trainingPixels newCodebook : list color) (counts : list Z).

Lemma movedAt_insert_ne (codebook : list color) (i j : nat) (v : color) :
  i <> j ->
  movedAt newCodebook counts (<[i := v]> codebook) j
  = movedAt newCodebook counts codebook j.
Proof.
  intros Hne. unfold movedAt. by rewrite list_lookup_total_insert_ne.
Qed.

Lemma updateLoop_spec (n s : nat) (codebook : list color)
    (hasChanged : bool) (calls : nat) :
  let '(codebook', hasChanged', calls') :=
    foldl (updateEntry random trainingPixels newCodebook counts)
      (codebook, hasChanged, calls) (seq s n) in
  length codebook' = length codebook /\
  (forall i, (i < s \/ s + n <= i)%nat -> codebook' !! i = codebook !! i) /\
  (forall i, (s <= i < s + n)%nat -> (i < length codebook)%nat ->
     if positiveCount counts i
     then codebook' !! i = Some (centroid (newCodebook !!! i) (counts !!! i))
     else exists k, (calls <= k < calls')%nat /\
            codebook' !! i
            = Some (trainingPixels !!! randomIndex random trainingPixels k)) /\
  (hasChanged' = true <->
     hasChanged = true \/
     exists i, (s <= i < s + n)%nat /\
       movedAt newCodebook counts codebook i = true) /\
  (calls <= calls')%nat.
Proof.
  revert s codebook hasChanged calls.
  induction n as [|n IH]; intros s codebook hasChanged calls.
  - simpl. split; [done|]. split; [done|]. split; [intros; lia|].
    split; [|done]. split; [by left|].
    intros [?|(i & Hi & _)]; [done | lia].
  - cbn [seq foldl]. unfold updateEntry at 2.
    destruct (positiveCount counts s) eqn:Hpos.
    + set (v := centroid (newCodebook !!! s) (counts !!! s)).
      set (h1 := if aboveThreshold (euclideanDistanceSq v (codebook !!! s))
                 then true else hasChanged).
      specialize (IH (S s) (<[s := v]> codebook) h1 calls).
      destruct (foldl _ _ _) as [[codebook' hasChanged'] calls'].
      destruct IH as (Hlen & Hout & Hin & Hch & Hcalls).
      rewrite length_insert in Hlen, Hin.
      split; [done|]. split; [|split; [|split; [|done]]].
      * intros i Hi. rewrite Hout by lia. apply list_lookup_insert_ne. lia.
      * intros i Hi Hilt. destruct (decide (i = s)) as [->|Hne].
        -- rewrite Hpos, Hout by lia. by apply list_lookup_insert_eq.
        -- apply Hin; [lia | done].
      * rewrite Hch. subst h1 v. split.
        -- intros [Hh|(i & Hi & Hm)].
           ++ revert Hh. destruct (aboveThreshold _) eqn:Habove; [|by left].
              intros _. right. exists s. split; [lia|]. unfold movedAt.
              by rewrite Hpos, Habove.
           ++ right. exists i. split; [lia|].
              by rewrite movedAt_insert_ne in Hm by lia.
        -- intros [->|(i & Hi & Hm)].
           ++ left. by destruct (aboveThreshold _).
           ++ destruct (decide (i = s)) as [->|Hne].
              ** left. unfold movedAt in Hm.
                 apply andb_true_iff in Hm as [_ ->]. done.
              ** right. exists i. split; [lia|].
                 by rewrite movedAt_insert_ne by lia.
    + set (v := trainingPixels !!! randomIndex random trainingPixels calls).
      specialize (IH (S s) (<[s := v]> codebook) hasChanged (S calls)).
      destruct (foldl _ _ _) as [[codebook' hasChanged'] calls'].
      destruct IH as (Hlen & Hout & Hin & Hch & Hcalls).
      rewrite length_insert in Hlen, Hin.
      split; [done|]. split; [|split; [|split; [|lia]]].
      * intros i Hi. rewrite Hout by lia. apply list_lookup_insert_ne. lia.
      * intros i Hi Hilt. destruct (decide (i = s)) as [->|Hne].
        -- rewrite Hpos, Hout by lia. exists calls. split; [lia|].
           by apply list_lookup_insert_eq.
        -- specialize (Hin i ltac:(lia) Hilt).
           destruct (positiveCount counts i); [done|].
           destruct Hin as (k & Hk & Hin). exists k. split; [lia | done].
      * rewrite Hch. split.
        -- intros [Hh|(i & Hi & Hm)]; [by left|].
           right. exists i. split; [lia|].
           by rewrite movedAt_insert_ne in Hm by lia.
        -- intros [->|(i & Hi & Hm)]; [by left|].
           destruct (decide (i = s)) as [->|Hne].
           ++ unfold movedAt in Hm. by rewrite Hpos in Hm.
           ++ right. exists i. split; [lia|].
              by rewrite movedAt_insert_ne by lia.
Qed.

End UpdateLoop.

(** ** One clustering iteration *)

Section Iteration.

Variable random : nat -> Q.

Lemma iteration_spec (trainingPixels codebook : list color) (calls : nat) :
  (length codebook <= K)%nat ->
  let '(codebook', hasChanged, calls') :=
    iteration random trainingPixels codebook calls in
  length codebook' = length codebook /\
  (forall i, (i < length codebook)%nat ->
     assignedTo codebook trainingPixels i <> [] ->
     codebook' !! i
     = Some (roundedMean (assignedTo codebook trainingPixels i))) /\
  (forall i, (i < length codebook)%nat ->
     assignedTo codebook trainingPixels i = [] ->
     exists k, (calls <= k < calls')%nat /\
       codebook' !! i
       = Some (trainingPixels !!! randomIndex random trainingPixels k)) /\
  (hasChanged = true <->
     exists i c, codebook !! i = Some c /\
       assignedTo codebook trainingPixels i <> [] /\
       (1 # 10000 < inject_Z (euclideanDistanceSq
          (roundedMean (assignedTo codebook trainingPixels i)) c))%Q) /\
  (calls <= calls')%nat.
Proof.
  intros HK. unfold iteration.
  pose proof (fun i Hi => accumulate_assigned codebook trainingPixels i Hi)
    as Hacc. cbv zeta in Hacc.
  destruct (accumulate _ _ _ _) as [sums counts]. simpl in Hacc.
  assert (Hpos : forall i, (i < length codebook)%nat ->
            positiveCount counts i = true <->
            assignedTo codebook trainingPixels i <> []).
  { intros i Hi. destruct (Hacc i ltac:(lia)) as [_ Hc].
    unfold positiveCount. rewrite Hc.
    destruct (assignedTo codebook trainingPixels i); simpl; [done|].
    rewrite Z.ltb_lt. split; [done | lia]. }
  assert (Hcen : forall i, (i < length codebook)%nat ->
            centroid (sums !!! i) (counts !!! i)
            = roundedMean (assignedTo codebook trainingPixels i)).
  { intros i Hi. destruct (Hacc i ltac:(lia)) as [Hs Hc].
    by rewrite (list_lookup_total_correct _ _ _ Hs),
               (list_lookup_total_correct _ _ _ Hc). }
  pose proof (updateLoop_spec random trainingPixels sums counts
                (length codebook) 0 codebook false calls) as Hloop.
  destruct (foldl _ _ _) as [[codebook' hasChanged] calls'].
  destruct Hloop as (Hlen & _ & Hin & Hch & Hcalls).
  split; [done|]. split; [|split; [|split; [|done]]].
  - intros i Hi Hne. specialize (Hin i ltac:(lia) Hi).
    apply Hpos in Hne; [|done]. rewrite Hne, Hcen in Hin; done.
  - intros i Hi Hnil. specialize (Hin i ltac:(lia) Hi).
    destruct (positiveCount counts i) eqn:Hp; [|done].
    apply Hpos in Hp; done.
  - rewrite Hch. split.
    + intros [?|(i & Hi & Hm)]; [done|]. simpl in Hi.
      assert (Hilt : (i < length codebook)%nat) by lia.
      destruct (lookup_lt_is_Some_2 codebook i Hilt) as [c Hc].
      unfold movedAt in Hm. apply andb_true_iff in Hm as [Hp Hm].
      exists i, c. split; [done|]. split; [by apply Hpos|].
      apply aboveThreshold_spec.
      by rewrite Hcen, (list_lookup_total_correct _ _ _ Hc) in Hm.
    + intros (i & c & Hc & Hne & Hd). right. exists i.
      pose proof (lookup_lt_Some _ _ _ Hc) as Hilt.
      split; [simpl; lia|]. unfold movedAt.
      apply andb_true_iff. split; [by apply Hpos|].
      rewrite Hcen, (list_lookup_total_correct _ _ _ Hc) by done.
      by apply aboveThreshold_spec.
Qed.

End Iteration.

(** ** The iteration loop *)

Section Loop.

Variable random : nat -> Q.

Lemma iteration_length (trainingPixels codebook : list color) (calls : nat) :
  length (iteration random trainingPixels codebook calls).1.1
  = length codebook.
Proof.
  unfold iteration. destruct (accumulate _ _ _ _) as [sums counts].
  pose proof (updateLoop_spec random trainingPixels sums counts
                (length codebook) 0 codebook false calls) as Hloop.
  destruct (foldl _ _ _) as [[codebook' hasChanged] calls'].
  by destruct Hloop as (Hlen & _).
Qed.

(** Every recorded iteration is one run of [iteration] on a codebook of the
    initial length. *)
Lemma kmeansTrace_entry (iters : nat) (trainingPixels codebook : list color)
    (calls : nat) (rec : IterationRecord) :
  rec ∈ kmeansTrace random iters trainingPixels codebook calls ->
  length (codebookBefore rec) = length codebook /\
  exists calls',
    iteration random trainingPixels (codebookBefore rec) (callsBefore rec)
    = (codebookAfter rec, changed rec, calls').
Proof.
  revert codebook calls.
  induction iters as [|iters IH]; intros codebook calls Hin; simpl in Hin.
  - by apply elem_of_nil in Hin.
  - pose proof (iteration_length trainingPixels codebook calls) as Hlen.
    destruct (iteration random trainingPixels codebook calls)
      as [[codebook' hasChanged] calls'] eqn:Hit.
    apply elem_of_cons in Hin as [->|Hin]; simpl.
    + split; [done|]. by exists calls'.
    + destruct hasChanged; [|by apply elem_of_nil in Hin].
      destruct (IH _ _ Hin) as [Hl Hex]. split; [|done].
      simpl in Hlen. congruence.
Qed.

(** The loop returns the codebook left by the last executed iteration. *)
Lemma kmeansLoop_last (iters : nat) (trainingPixels codebook : list color)
    (calls : nat) :
  (kmeansLoop random iters trainingPixels codebook calls).1
  = default codebook
      (codebookAfter
         <$> last (kmeansTrace random iters trainingPixels codebook calls)).
Proof.
  revert codebook calls.
  induction iters as [|iters IH]; intros codebook calls;
    cbn [kmeansLoop kmeansTrace]; [done|].
  destruct (iteration random trainingPixels codebook calls)
    as [[codebook' hasChanged] calls'].
  destruct hasChanged; [|done].
  rewrite IH, last_cons.
  by destruct (last (kmeansTrace random iters trainingPixels codebook' calls')).
Qed.

Lemma kmeansLoop_length (iters : nat) (trainingPixels codebook : list color)
    (calls : nat) :
  length (kmeansLoop random iters trainingPixels codebook calls).1
  = length codebook.
Proof.
  revert codebook calls.
  induction iters as [|iters IH]; intros codebook calls; simpl; [done|].
  pose proof (iteration_length trainingPixels codebook calls) as Hlen.
  destruct (iteration random trainingPixels codebook calls)
    as [[codebook' hasChanged] calls'].
  destruct hasChanged; [|done]. by rewrite IH.
Qed.

Lemma kmeansTrace_nil (iters : nat) (trainingPixels codebook : list color)
    (calls : nat) :
  kmeansTrace random iters trainingPixels codebook calls = [] <-> iters = O.
Proof.
  destruct iters; simpl; [done|].
  by destruct (iteration random trainingPixels codebook calls) as [[? ?] ?].
Qed.

(** Iteration [t] is the last executed one exactly when its [hasChanged] is
    false or the iteration budget is used up. *)
Lemma kmeansTrace_exit (iters : nat) (trainingPixels codebook : list color)
    (calls t : nat) (rec : IterationRecord) :
  kmeansTrace random iters trainingPixels codebook calls !! t = Some rec ->
  length (kmeansTrace random iters trainingPixels codebook calls) = S t <->
  changed rec = false \/ S t = iters.
Proof.
  revert codebook calls t.
  induction iters as [|iters IH]; intros codebook calls t; simpl; [done|].
  destruct (iteration random trainingPixels codebook calls)
    as [[codebook' hasChanged] calls'].
  destruct t as [|t]; simpl.
  - intros [= <-]; simpl. destruct hasChanged; simpl.
    + rewrite Nat.succ_inj_wd, length_zero_iff_nil, kmeansTrace_nil.
      split; [intros ->; by right | intros [?|?]; [done | lia]].
    + split; [by left | done].
  - destruct hasChanged; [|done]. intros Hrec.
    rewrite !Nat.succ_inj_wd. by apply IH.
Qed.

End Loop.

(** ** Reseeding draws *)

Lemma randomIndex_lt (random : nat -> Q) (trainingPixels : list color)
    (k : nat) :
  unitInterval random -> trainingPixels <> [] ->
  (randomIndex random trainingPixels k < length trainingPixels)%nat.
Proof.
  intros Hunit Hne. destruct (Hunit k) as [H0 H1]. unfold randomIndex, Math_floor.
  set (n := Z.of_nat (length trainingPixels)).
  assert (Hn : 0 < n) by (subst n; destruct trainingPixels; simpl; [done | lia]).
  set (x := (random k * inject_Z n)%Q).
  assert (Hx0 : (0 <= x)%Q).
  { apply Qmult_le_0_compat; [done|]. unfold Qle; simpl. lia. }
  assert (Hxn : (x < inject_Z n)%Q).
  { rewrite <- (Qmult_1_l (inject_Z n)). subst x.
    apply Qmult_lt_compat_r; [|done]. unfold Qlt; simpl. lia. }
  assert (Hlo : 0 <= Qfloor x) by (apply (Qfloor_resp_le 0 x Hx0)).
  assert (Hhi : Qfloor x < n).
  { rewrite Zlt_Qlt. eapply Qle_lt_trans; [apply Qfloor_le | done]. }
  subst n. lia.
Qed.

Lemma take_K_length (trainingPixels : list color) :
  length (take K trainingPixels) = (K `min` length trainingPixels)%nat.
Proof. apply length_take. Qed.

(** ** Codebook cardinality *)

(** C2 as stated fails when fewer than [K] training vectors exist: the
    single visible pixel of a 1 x 1 image yields a codebook of one entry. *)
Lemma codebook_size_counterexample :
  length (generateCodebook (fun _ => 0%Q) (vectorize [10; 20; 30; 255]))
  <> K.
Proof. vm_compute. discriminate. Qed.

(** C2 (amended). The codebook has exactly [min K n] entries, where [n] is
    the size of the training set, when clustering completes and at the start
    and end of every executed iteration; so exactly [K = 64] whenever at least
    64 training vectors exist.  An entry whose cluster received no vector is
    overwritten with a training vector and stays in place. *)
Theorem codebook_size (random : nat -> Q) (trainingPixels : list color) :
  unitInterval random -> trainingPixels <> [] ->
  length (generateCodebook random trainingPixels)
  = (K `min` length trainingPixels)%nat /\
  ((K <= length trainingPixels)%nat ->
   length (generateCodebook random trainingPixels) = K) /\
  forall rec, rec ∈ clusteringTrace random trainingPixels ->
    length (codebookBefore rec) = (K `min` length trainingPixels)%nat /\
    length (codebookAfter rec) = (K `min` length trainingPixels)%nat /\
    forall i, (i < K `min` length trainingPixels)%nat ->
      assignedTo (codebookBefore rec) trainingPixels i = [] ->
      exists p, p ∈ trainingPixels /\ codebookAfter rec !! i = Some p.
Proof.
  intros Hunit Hne.
  assert (Hfinal : length (generateCodebook random trainingPixels)
                   = (K `min` length trainingPixels)%nat).
  { unfold generateCodebook. by rewrite kmeansLoop_length, take_K_length. }
  split; [done|]. split; [lia|].
  intros rec Hrec. unfold clusteringTrace in Hrec.
  apply kmeansTrace_entry in Hrec as (Hbefore & calls' & Hit).
  rewrite take_K_length in Hbefore.
  pose proof (iteration_spec random trainingPixels (codebookBefore rec)
                (callsBefore rec) ltac:(lia)) as Hspec.
  rewrite Hit in Hspec. destruct Hspec as (Hafter & _ & Hempty & _).
  split; [done|]. split; [congruence|].
  intros i Hi Hnil. destruct (Hempty i ltac:(lia) Hnil) as (k & _ & Hk).
  eexists. split; [|done].
  apply list_elem_of_lookup_total_2. by apply randomIndex_lt.
Qed.

Lemma codebook_size_witness :
  unitInterval (fun _ => 0%Q) /\ [(10, 20, 30) : color] <> [] /\
  length (generateCodebook (fun _ => 0%Q) [(10, 20, 30)]) = 1%nat.
Proof.
  assert (Hunit : unitInterval (fun _ => 0%Q)) by (intros k; split; done).
  split; [done|]. split; [done|].
  exact (proj1 (codebook_size (fun _ => 0%Q) [(10, 20, 30)] Hunit
                  ltac:(discriminate))).
Defined.

(** ** Convergence test *)

(** With training vectors a, a, b the initial codebook is [a; a; b]; entry 1
    receives no vector and is reseeded with b, a move of squared distance 3,
    yet [hasChanged] stays false and the loop stops after the first
    iteration. *)
Lemma loop_exit_counterexample :
  ~ exitsWhenNoEntryMoved (fun _ => (3 # 4)%Q)
      [(1, 1, 1); (1, 1, 1); (2, 2, 2)].
Proof.
  intros Hclaim.
  specialize (Hclaim 0%nat
    {| codebookBefore := [(1, 1, 1); (1, 1, 1); (2, 2, 2)];
       callsBefore := 0;
       codebookAfter := [(1, 1, 1); (2, 2, 2); (2, 2, 2)];
       changed := false |} eq_refl).
  destruct Hclaim as [Hexit _].
  destruct (Hexit eq_refl) as [Hnone|Hcap]; [|discriminate].
  apply Hnone. exists 1%nat, (1, 1, 1), (2, 2, 2).
  split; [done|]. split; [done|]. reflexivity.
Qed.

(** C5 (amended). Iteration [t] is the last executed one if and only if its
    [hasChanged] flag is false or it is the tenth; and the flag is true if
    and only if some entry that received at least one training vector moved
    by more than the threshold.  Entries reseeded because their cluster was
    empty do not count. *)
Theorem loop_exit (random : nat -> Q) (trainingPixels : list color)
    (t : nat) (rec : IterationRecord) :
  clusteringTrace random trainingPixels !! t = Some rec ->
  (length (clusteringTrace random trainingPixels) = S t <->
   changed rec = false \/ S t = MAX_ITERATIONS) /\
  (changed rec = true <->
   exists i, assignedTo (codebookBefore rec) trainingPixels i <> [] /\
     entryMoved rec i).
Proof.
  intros Hrec. split; [by apply kmeansTrace_exit|].
  apply list_elem_of_lookup_2, kmeansTrace_entry in Hrec
    as (Hbefore & calls' & Hit).
  rewrite take_K_length in Hbefore.
  pose proof (iteration_spec random trainingPixels (codebookBefore rec)
                (callsBefore rec) ltac:(lia)) as Hspec.
  rewrite Hit in Hspec. destruct Hspec as (_ & Hmean & _ & Hch & _).
  rewrite Hch. split.
  - intros (i & c & Hc & Hne & Hd). exists i. split; [done|].
    exists c, (roundedMean (assignedTo (codebookBefore rec) trainingPixels i)).
    split; [done|]. split; [|done].
    apply Hmean; [by eapply lookup_lt_Some | done].
  - intros (i & Hne & c & c' & Hc & Hc' & Hd). exists i, c.
    split; [done|]. split; [done|].
    rewrite Hmean in Hc' by (by eapply lookup_lt_Some || done).
    by simplify_eq.
Qed.

Lemma loop_exit_witness :
  clusteringTrace (fun _ => (3 # 4)%Q) [(1, 1, 1); (1, 1, 1); (2, 2, 2)]
    !! 0%nat
  = Some {| codebookBefore := [(1, 1, 1); (1, 1, 1); (2, 2, 2)];
            callsBefore := 0;
            codebookAfter := [(1, 1, 1); (2, 2, 2); (2, 2, 2)];
            changed := false |} /\
  length (clusteringTrace (fun _ => (3 # 4)%Q)
            [(1, 1, 1); (1, 1, 1); (2, 2, 2)]) = 1%nat.
Proof.
  split; [reflexivity|].
  apply (loop_exit (fun _ => (3 # 4)%Q) [(1, 1, 1); (1, 1, 1); (2, 2, 2)] 0
           _ eq_refl).
  by left.
Defined.

(** ** Assignment and update steps *)

(** C6. In every executed iteration each training vector is assigned the
    lowest codebook index at minimal squared distance, and every codebook
    index with at least one assigned vector then holds the component-wise
    rounded mean of the vectors assigned to it. *)
Theorem assignment_and_update (random : nat -> Q)
    (trainingPixels : list color) (rec : IterationRecord) :
  rec ∈ clusteringTrace random trainingPixels ->
  (forall k p, trainingPixels !! k = Some p ->
     assign (codebookBefore rec) trainingPixels !! k
     = Some (nearestIndex (codebookBefore rec) p) /\
     firstMinimum p (codebookBefore rec)
       (nearestIndex (codebookBefore rec) p)) /\
  (forall i, (i < length (codebookBefore rec))%nat ->
     assignedTo (codebookBefore rec) trainingPixels i <> [] ->
     codebookAfter rec !! i
     = Some (roundedMean
               (assignedTo (codebookBefore rec) trainingPixels i))).
Proof.
  intros Hrec. unfold clusteringTrace in Hrec.
  apply kmeansTrace_entry in Hrec as (Hbefore & calls' & Hit).
  rewrite take_K_length in Hbefore. split.
  - intros k p Hk. split.
    + unfold assign. by rewrite list_lookup_fmap, Hk.
    + apply nearestIndex_firstMinimum. intros Hnil.
      rewrite Hnil in Hbefore. apply lookup_lt_Some in Hk.
      cbn [length] in Hbefore. unfold K in Hbefore. lia.
  - pose proof (iteration_spec random trainingPixels (codebookBefore rec)
                  (callsBefore rec) ltac:(lia)) as Hspec.
    rewrite Hit in Hspec. by destruct Hspec as (_ & Hmean & _).
Qed.

Lemma assignment_and_update_witness :
  {| codebookBefore := [(1, 1, 1); (1, 1, 1); (2, 2, 2)];
     callsBefore := 0;
     codebookAfter := [(1, 1, 1); (2, 2, 2); (2, 2, 2)];
     changed := false |}
  ∈ clusteringTrace (fun _ => (3 # 4)%Q) [(1, 1, 1); (1, 1, 1); (2, 2, 2)]
  /\ assign [(1, 1, 1); (1, 1, 1); (2, 2, 2)]
       [(1, 1, 1); (1, 1, 1); (2, 2, 2)] !! 1%nat
     = Some (nearestIndex [(1, 1, 1); (1, 1, 1); (2, 2, 2)] (1, 1, 1)).
Proof.
  assert (Hin : {| codebookBefore := [(1, 1, 1); (1, 1, 1); (2, 2, 2)];
                   callsBefore := 0;
                   codebookAfter := [(1, 1, 1); (2, 2, 2); (2, 2, 2)];
                   changed := false |}
                ∈ clusteringTrace (fun _ => (3 # 4)%Q)
                    [(1, 1, 1); (1, 1, 1); (2, 2, 2)]).
  { apply list_elem_of_here. }
  split; [exact Hin|].
  exact (proj1 (proj1 (assignment_and_update _ _ _ Hin) 1%nat (1, 1, 1)
                  eq_refl)).
Defined.

(** ** The cache key *)

Lemma pretty_N_go_noComma (x : N) (s : string) :
  noComma s -> noComma (pretty_N_go x s).
Proof.
  revert s. induction (N.lt_wf_0 x) as [x _ IH]; intros s Hs.
  destruct (decide (x = 0)%N) as [->|Hx]; [by rewrite pretty_N_go_0|].
  rewrite pretty_N_go_step by lia. apply IH.
  - apply N.div_lt; lia.
  - split; [|done]. unfold pretty_N_char. by repeat case_match.
Qed.

Lemma pretty_Z_noComma (z : Z) : noComma (pretty z).
Proof.
  destruct z as [|x|x]; unfold pretty, pretty_Z; [by compute| |].
  - apply pretty_N_go_noComma. done.
  - split; [done|]. apply pretty_N_go_noComma. done.
Qed.

Lemma comma_separated_inj (s1 s2 t1 t2 : string) :
  noComma s1 -> noComma s2 ->
  s1 +:+ "," +:+ t1 = s2 +:+ "," +:+ t2 -> s1 = s2 /\ t1 = t2.
Proof.
  revert s2. induction s1 as [|a s1 IH]; intros [|a' s2]; cbn.
  - intros _ _ [= Heq]. done.
  - intros _ [Ha' _] [= Heq _]. done.
  - intros [Ha _] _ [= Heq _]. done.
  - intros [_ Hs1] [_ Hs2] [= -> Heq].
    destruct (IH s2 Hs1 Hs2 Heq) as [-> ->]. done.
Qed.

(** Distinct colour triples have distinct keys. *)
Lemma colorKey_inj (r g b r' g' b' : Z) :
  colorKey r g b = colorKey r' g' b' -> r = r' /\ g = g' /\ b = b'.
Proof.
  unfold colorKey. intros Heq.
  apply comma_separated_inj in Heq as [Hr Heq]; try apply pretty_Z_noComma.
  apply comma_separated_inj in Heq as [Hg Hb]; try apply pretty_Z_noComma.
  by apply (inj pretty) in Hr, Hg, Hb.
Qed.

(** ** Reconstruction *)

Lemma cacheSound_empty (codebook : list color) : cacheSound codebook ∅.
Proof. intros r g b c Hc. by rewrite lookup_empty in Hc. Qed.

Lemma cacheSound_insert (codebook : list color)
    (pixelMap : gmap string color) (r g b : Z) :
  cacheSound codebook pixelMap ->
  cacheSound codebook
    (<[colorKey r g b := codebook !!! nearestIndex codebook (r, g, b)]>
       pixelMap).
Proof.
  intros Hsound r' g' b' c Hc.
  destruct (decide (colorKey r g b = colorKey r' g' b')) as [Heq|Hne].
  - rewrite Heq, lookup_insert_eq in Hc.
    apply colorKey_inj in Heq as (-> & -> & ->). by simplify_eq.
  - rewrite lookup_insert_ne in Hc by done. by apply Hsound.
Qed.

Lemma reconstruct_cacheSound (codebook : list color) (imgData : list Z)
    (pixelMap : gmap string color) :
  cacheSound codebook pixelMap ->
  reconstruct codebook imgData pixelMap = reconstructNaive codebook imgData.
Proof.
  revert pixelMap.
  induction imgData as [l Hshort | r g b a rest IH] using stride4_ind;
    intros pixelMap Hsound.
  - by destruct l as [|? [|? [|? [|? ?]]]]; simpl in *; try lia.
  - cbn [reconstruct reconstructNaive].
    destruct (pixelMap !! colorKey r g b) as [cached|] eqn:Hlook.
    + rewrite (Hsound _ _ _ _ Hlook), (IH _ Hsound). done.
    + by rewrite (IH _ (cacheSound_insert _ _ r g b Hsound)).
Qed.

Lemma reconstruct_from_empty_cache (codebook : list color)
    (imgData : list Z) :
  reconstruct codebook imgData ∅ = reconstructNaive codebook imgData.
Proof. apply reconstruct_cacheSound, cacheSound_empty. Qed.

(** C10. Memoization never changes the result: the reconstruction with its
    cache, started on the empty cache, equals the reconstruction that runs a
    fresh lowest-index nearest-entry search for every pixel. *)
Theorem memoization_transparent (codebook : list color) (imgData : list Z) :
  reconstruct codebook imgData ∅ = reconstructNaive codebook imgData.
Proof.
  apply reconstruct_cacheSound. intros r g b c Hc.
  by rewrite lookup_empty in Hc.
Qed.

(** ** Pixels of the reconstructed buffer *)

Lemma reconstructNaive_pixel (codebook : list color) (imgData : list Z)
    (p : nat) (a : Z) :
  imgData !! (4 * p + 3)%nat = Some a ->
  exists r g b,
    imgData !! (4 * p + 0)%nat = Some r /\
    imgData !! (4 * p + 1)%nat = Some g /\
    imgData !! (4 * p + 2)%nat = Some b /\
    let finalColor := codebook !!! nearestIndex codebook (r, g, b) in
    let out := reconstructNaive codebook imgData in
    out !! (4 * p + 0)%nat = Some (toUint8Clamp (red finalColor)) /\
    out !! (4 * p + 1)%nat = Some (toUint8Clamp (green finalColor)) /\
    out !! (4 * p + 2)%nat = Some (toUint8Clamp (blue finalColor)) /\
    out !! (4 * p + 3)%nat = Some (toUint8Clamp a).
Proof.
  revert p.
  induction imgData as [l Hshort | r g b a' rest IH] using stride4_ind;
    intros p Hp.
  - apply lookup_lt_Some in Hp. lia.
  - destruct p as [|p].
    + simpl in Hp. injection Hp as <-. exists r, g, b. done.
    + rewrite lookup_stride4 in Hp.
      destruct (IH p Hp) as (r0 & g0 & b0 & Hr & Hg & Hb & Hout).
      exists r0, g0, b0. cbn [reconstructNaive]. cbv zeta in *.
      rewrite !lookup_stride4. done.
Qed.

Lemma reconstructNaive_length (codebook : list color) (imgData : list Z)
    (n : nat) :
  length imgData = (4 * n)%nat ->
  length (reconstructNaive codebook imgData) = length imgData.
Proof.
  revert n.
  induction imgData as [l Hshort | r g b a rest IH] using stride4_ind;
    intros n Hn.
  - destruct l as [|? [|? [|? [|? ?]]]]; simpl in *; lia.
  - destruct n as [|n]; simpl in Hn; [lia|].
    cbn [reconstructNaive length]. rewrite (IH n); [done | lia].
Qed.

(** ** Alpha preservation *)

(** C3. In the reconstructed buffer the alpha byte of every pixel equals the
    alpha byte of the same pixel of the decoded buffer, whatever the
    codebook; the buffer keeps its size, and the other three bytes of the
    pixel are the channels of the matched codebook colour. *)
Theorem alpha_preserved (codebook : list color) (imgData : list Z)
    (p : nat) (a : Z) :
  Forall is_byte imgData ->
  imgData !! (4 * p + 3)%nat = Some a ->
  reconstruct codebook imgData ∅ !! (4 * p + 3)%nat = Some a /\
  (forall n, length imgData = (4 * n)%nat ->
     length (reconstruct codebook imgData ∅) = length imgData).
Proof.
  intros Hbytes Ha. rewrite reconstruct_from_empty_cache. split.
  - destruct (reconstructNaive_pixel codebook imgData p a Ha)
      as (r & g & b & _ & _ & _ & _ & _ & _ & Hout).
    rewrite Hout, toUint8Clamp_byte; [done|].
    by apply (Forall_lookup_1 _ _ _ _ Hbytes Ha).
  - apply reconstructNaive_length.
Qed.

(** ** Codebook entries are byte colours *)

Lemma sumOf_bounds (channel : color -> Z) (l : list color) (lo hi : Z) :
  Forall (fun p => lo <= channel p <= hi) l ->
  lo * Z.of_nat (length l) <= sumOf channel l <= hi * Z.of_nat (length l).
Proof.
  induction 1 as [|p l Hp _ IH]; simpl; [lia|].
  fold (sumOf channel l). lia.
Qed.

Lemma roundedMean_byte (l : list color) :
  l <> [] -> Forall byteColor l -> byteColor (roundedMean l).
Proof.
  intros Hne Hbytes.
  assert (Hlen : 0 < Z.of_nat (length l)) by (destruct l; simpl; [done | lia]).
  unfold byteColor, roundedMean, is_byte; simpl.
  split; [|split];
    (apply Math_round_div_bounds; [done|];
     apply sumOf_bounds; eapply Forall_impl; [exact Hbytes|];
     intros c (Hr & Hg & Hb); done).
Qed.

Lemma assignedTo_Forall (P : color -> Prop)
    (codebook trainingPixels : list color) (i : nat) :
  Forall P trainingPixels -> Forall P (assignedTo codebook trainingPixels i).
Proof.
  rewrite !Forall_forall. intros HP c Hc.
  apply list_elem_of_filter in Hc as [_ Hc]. by apply HP.
Qed.

Lemma vectorize_bytes (imgData : list Z) :
  Forall is_byte imgData -> Forall byteColor (vectorize imgData).
Proof.
  induction imgData as [l Hshort | r g b a rest IH] using stride4_ind;
    intros Hbytes.
  - by destruct l as [|? [|? [|? [|? ?]]]]; simpl in *; try lia.
  - cbn [vectorize].
    apply Forall_cons in Hbytes as [Hr Hbytes].
    apply Forall_cons in Hbytes as [Hg Hbytes].
    apply Forall_cons in Hbytes as [Hb Hbytes].
    apply Forall_cons in Hbytes as [_ Hbytes].
    destruct (128 <? a); [|by apply IH].
    apply Forall_cons. split; [done | by apply IH].
Qed.

Section ByteInvariant.

Variable random : nat -> Q.
Hypothesis random_unit : unitInterval random.
Variable trainingPixels : list color.
Hypothesis training_nonempty : trainingPixels <> [].
Hypothesis training_bytes : Forall byteColor trainingPixels.

Lemma iteration_bytes (codebook : list color) (calls : nat) :
  (length codebook <= K)%nat ->
  Forall byteColor (iteration random trainingPixels codebook calls).1.1.
Proof.
  intros HK.
  pose proof (iteration_spec random trainingPixels codebook calls HK) as Hspec.
  destruct (iteration random trainingPixels codebook calls)
    as [[codebook' hasChanged] calls']. simpl.
  destruct Hspec as (Hlen & Hmean & Hempty & _).
  apply Forall_lookup. intros i c Hc.
  pose proof (lookup_lt_Some _ _ _ Hc) as Hi. rewrite Hlen in Hi.
  destruct (assignedTo codebook trainingPixels i) as [|q l] eqn:Hassigned.
  - destruct (Hempty i Hi Hassigned) as (k & _ & Hk).
    rewrite Hk in Hc. injection Hc as <-.
    eapply Forall_forall; [exact training_bytes|].
    apply list_elem_of_lookup_total_2. by apply randomIndex_lt.
  - rewrite Hmean in Hc by (done || by rewrite Hassigned).
    injection Hc as <-.
    apply roundedMean_byte; [by rewrite Hassigned|].
    by apply assignedTo_Forall.
Qed.

Lemma kmeansLoop_bytes (iters : nat) (codebook : list color) (calls : nat) :
  (length codebook <= K)%nat -> Forall byteColor codebook ->
  Forall byteColor (kmeansLoop random iters trainingPixels codebook calls).1.
Proof.
  revert codebook calls.
  induction iters as [|iters IH]; intros codebook calls HK Hbytes; [done|].
  cbn [kmeansLoop].
  pose proof (iteration_bytes codebook calls HK) as Hit.
  pose proof (iteration_length random trainingPixels codebook calls) as Hlen.
  destruct (iteration random trainingPixels codebook calls)
    as [[codebook' hasChanged] calls']. simpl in Hit, Hlen.
  destruct hasChanged; [|done]. apply IH; [lia | done].
Qed.

(** The final codebook is non-empty and made of byte colours. *)
Lemma generateCodebook_bytes :
  generateCodebook random trainingPixels <> [] /\
  Forall byteColor (generateCodebook random trainingPixels).
Proof.
  split.
  - intros Hnil. apply (f_equal length) in Hnil.
    unfold generateCodebook in Hnil.
    rewrite kmeansLoop_length, take_K_length in Hnil.
    destruct trainingPixels; [done|]. simpl in Hnil. unfold K in Hnil. lia.
  - apply kmeansLoop_bytes.
    + rewrite take_K_length. lia.
    + by apply Forall_take.
Qed.

End ByteInvariant.

(** ** Quantization membership *)

Lemma selectTraining_sound (shuffle : list color -> list color)
    (pixels : list color) :
  (forall l, shuffle l ≡ₚ l) -> pixels <> [] -> Forall byteColor pixels ->
  selectTraining shuffle pixels <> [] /\
  Forall byteColor (selectTraining shuffle pixels).
Proof.
  intros Hperm Hne Hbytes. unfold selectTraining, PIXEL_SAMPLE_SIZE.
  destruct (Z.ltb_spec 40000 (Z.of_nat (length pixels))) as [Hbig|Hsmall];
    [|done].
  split.
  - intros Hnil. apply (f_equal length) in Hnil.
    rewrite length_take, (Permutation_length (Hperm pixels)) in Hnil.
    change (length (@nil color)) with 0%nat in Hnil. lia.
  - apply Forall_take. by rewrite (Hperm pixels).
Qed.

(** C4. Every pixel of the reconstructed buffer carries, in its three colour
    bytes, exactly the channels of one entry of the final codebook. *)
Theorem quantization_membership (random : nat -> Q)
    (shuffle : list color -> list color) (imgData : list Z) (p : nat) (a : Z) :
  unitInterval random ->
  (forall l, shuffle l ≡ₚ l) ->
  Forall is_byte imgData ->
  imgData !! (4 * p + 3)%nat = Some a ->
  let codebook :=
    generateCodebook random (selectTraining shuffle (vectorize imgData)) in
  let out := quantizedPixels random shuffle imgData in
  vectorize imgData <> [] ->
  exists c, c ∈ codebook /\
    out !! (4 * p)%nat = Some (red c) /\
    out !! (4 * p + 1)%nat = Some (green c) /\
    out !! (4 * p + 2)%nat = Some (blue c).
Proof.
  intros Hunit Hperm Hbytes Ha codebook out Hvisible.
  destruct (selectTraining_sound shuffle (vectorize imgData) Hperm Hvisible
              (vectorize_bytes imgData Hbytes)) as [Hne Htb].
  destruct (generateCodebook_bytes random Hunit _ Hne Htb) as [Hcne Hcb].
  fold codebook in Hcne, Hcb.
  destruct (reconstructNaive_pixel codebook imgData p a Ha)
    as (r & g & b & _ & _ & _ & Hr & Hg & Hb & _).
  set (c := codebook !!! nearestIndex codebook (r, g, b)) in *.
  assert (Hc : c ∈ codebook).
  { apply list_elem_of_lookup_total_2. by apply nearestIndex_lt. }
  destruct (proj1 (Forall_forall _ _) Hcb c Hc) as (Hcr & Hcg & Hcbl).
  exists c. split; [done|].
  subst out. unfold quantizedPixels. fold codebook.
  rewrite reconstruct_from_empty_cache.
  rewrite Nat.add_0_r in Hr.
  rewrite Hr, Hg, Hb, !toUint8Clamp_byte by done. done.
Qed.

Lemma quantization_membership_witness :
  unitInterval (fun _ => 0%Q) /\
  (forall l : list color, l ≡ₚ l) /\
  Forall is_byte [10; 20; 30; 255] /\
  exists c,
    c ∈ generateCodebook (fun _ => 0%Q)
          (selectTraining (fun l => l) (vectorize [10; 20; 30; 255])) /\
    quantizedPixels (fun _ => 0%Q) (fun l => l) [10; 20; 30; 255] !! 0%nat
    = Some (red c) /\
    quantizedPixels (fun _ => 0%Q) (fun l => l) [10; 20; 30; 255] !! 1%nat
    = Some (green c) /\
    quantizedPixels (fun _ => 0%Q) (fun l => l) [10; 20; 30; 255] !! 2%nat
    = Some (blue c).
Proof.
  assert (Hunit : unitInterval (fun _ => 0%Q)) by (intros k; split; done).
  assert (Hbytes : Forall is_byte [10; 20; 30; 255]).
  { repeat (apply Forall_cons; split; [unfold is_byte; lia|]).
    apply Forall_nil_2. }
  split; [done|]. split; [done|]. split; [done|].
  exact (quantization_membership (fun _ => 0%Q) (fun l => l)
           [10; 20; 30; 255] 0 255 Hunit (fun l => reflexivity l) Hbytes
           eq_refl ltac:(discriminate)).
Defined.

(** ** Dependence on the random draws *)

Section Draws.

Variables random1 random2 : nat -> Q.
Variable trainingPixels : list color.

Lemma updateEntry_calls_mono (newCodebook : list color) (counts : list Z)
    (l : list nat) (st : UpdateState) :
  (st.2 <= (foldl (updateEntry random1 trainingPixels newCodebook counts)
              st l).2)%nat.
Proof.
  revert st. induction l as [|i l IH]; intros st; simpl; [done|].
  etrans; [|apply IH].
  destruct st as [[codebook hasChanged] calls]. unfold updateEntry.
  destruct (positiveCount counts i); simpl; lia.
Qed.

Lemma updateLoop_agree (newCodebook : list color) (counts : list Z)
    (l : list nat) (st : UpdateState) :
  (forall j,
     (st.2 <= j < (foldl (updateEntry random1 trainingPixels newCodebook
                            counts) st l).2)%nat ->
     random1 j = random2 j) ->
  foldl (updateEntry random2 trainingPixels newCodebook counts) st l
  = foldl (updateEntry random1 trainingPixels newCodebook counts) st l.
Proof.
  revert st. induction l as [|i l IH]; intros st Hagree; simpl; [done|].
  simpl in Hagree.
  pose proof (updateEntry_calls_mono newCodebook counts l
                (updateEntry random1 trainingPixels newCodebook counts st i))
    as Hmono.
  assert (Hstep : updateEntry random2 trainingPixels newCodebook counts st i
                  = updateEntry random1 trainingPixels newCodebook counts st i).
  { destruct st as [[codebook hasChanged] calls]. unfold updateEntry in *.
    destruct (positiveCount counts i); [done|].
    unfold randomIndex. simpl in Hmono, Hagree.
    rewrite (Hagree calls) by lia. done. }
  rewrite Hstep. apply IH. intros j Hj. apply Hagree. split; [|lia].
  etrans; [|exact (proj1 Hj)].
  destruct st as [[codebook hasChanged] calls]. unfold updateEntry.
  destruct (positiveCount counts i); simpl; lia.
Qed.

Lemma iteration_calls_mono (codebook : list color) (calls : nat) :
  (calls <= (iteration random1 trainingPixels codebook calls).2)%nat.
Proof.
  unfold iteration. destruct (accumulate _ _ _ _) as [sums counts].
  apply (updateEntry_calls_mono sums counts _ (codebook, false, calls)).
Qed.

Lemma iteration_agree (codebook : list color) (calls : nat) :
  (forall j,
     (calls <= j < (iteration random1 trainingPixels codebook calls).2)%nat ->
     random1 j = random2 j) ->
  iteration random2 trainingPixels codebook calls
  = iteration random1 trainingPixels codebook calls.
Proof.
  unfold iteration. destruct (accumulate _ _ _ _) as [sums counts].
  apply (updateLoop_agree sums counts _ (codebook, false, calls)).
Qed.

Lemma kmeansLoop_calls_mono (iters : nat) (codebook : list color)
    (calls : nat) :
  (calls <= (kmeansLoop random1 iters trainingPixels codebook calls).2)%nat.
Proof.
  revert codebook calls.
  induction iters as [|iters IH]; intros codebook calls; simpl; [done|].
  pose proof (iteration_calls_mono codebook calls) as Hit.
  destruct (iteration random1 trainingPixels codebook calls)
    as [[codebook' hasChanged] calls']. simpl in Hit.
  destruct hasChanged; [|done]. etrans; [exact Hit | apply IH].
Qed.

(** The loop only depends on the draws it consumes. *)
Lemma kmeansLoop_agree (iters : nat) (codebook : list color) (calls : nat) :
  (forall j,
     (calls <= j
      < (kmeansLoop random1 iters trainingPixels codebook calls).2)%nat ->
     random1 j = random2 j) ->
  kmeansLoop random2 iters trainingPixels codebook calls
  = kmeansLoop random1 iters trainingPixels codebook calls.
Proof.
  revert codebook calls.
  induction iters as [|iters IH]; intros codebook calls Hagree; [done|].
  cbn [kmeansLoop] in *.
  pose proof (iteration_calls_mono codebook calls) as Hit.
  pose proof (iteration_agree codebook calls) as Hstep.
  destruct (iteration random1 trainingPixels codebook calls)
    as [[codebook' hasChanged] calls'] eqn:Hrun. simpl in Hit, Hstep.
  destruct hasChanged.
  - pose proof (kmeansLoop_calls_mono iters codebook' calls') as Hmono.
    rewrite Hstep by (intros j Hj; apply Hagree; lia).
    apply IH. intros j Hj. apply Hagree. lia.
  - simpl in Hagree. by rewrite Hstep.
Qed.

End Draws.

(** ** Determinism *)

Lemma determinism_counterexample : ~ deterministicBelowSampleCap.
Proof.
  intros Hdet.
  assert (Hunit : forall q : Q, (0 <= q)%Q -> (q < 1)%Q ->
                    unitInterval (fun _ => q)) by (intros q ? ? k; done).
  assert (Hbytes : Forall is_byte fiveByOne).
  { unfold fiveByOne.
    repeat (apply Forall_cons; split; [unfold is_byte; lia|]).
    apply Forall_nil_2. }
  specialize (Hdet (fun _ => 0%Q) (fun _ => (3 # 4)%Q) (fun l => l)
                (fun l => l) fiveByOne
                (Hunit 0%Q ltac:(done) ltac:(done))
                (Hunit (3 # 4)%Q ltac:(done) ltac:(done))
                Hbytes ltac:(vm_compute; discriminate)).
  apply (f_equal (fun out => out !! 16%nat)) in Hdet.
  vm_compute in Hdet. discriminate.
Qed.

(** C9 (amended). With at most 40,000 visible pixels no subsampling takes
    place, and the result is determined by the decoded buffer together with
    the draws consumed by empty-cluster reseeding: two invocations whose
    draws agree on the calls the first one makes, in particular two
    invocations of which the first never reseeds, produce the same quantized
    pixels and the same outcome (image, stats and [compressionApplied]). *)
Theorem determinism_up_to_reseeding (random1 random2 : nat -> Q)
    (shuffle1 shuffle2 : list color -> list color)
    (toDataURL : Z -> Z -> list Z -> DataUrl) (file : File)
    (originalDataUrl : DataUrl) (imgData : list Z) (imgWidth imgHeight : Z) :
  Z.of_nat (length (vectorize imgData)) <= PIXEL_SAMPLE_SIZE ->
  (forall j, (j < reseedCalls random1 (vectorize imgData))%nat ->
     random1 j = random2 j) ->
  quantizedPixels random2 shuffle2 imgData
  = quantizedPixels random1 shuffle1 imgData /\
  quantize random2 shuffle2 toDataURL file originalDataUrl imgData
    imgWidth imgHeight
  = quantize random1 shuffle1 toDataURL file originalDataUrl imgData
      imgWidth imgHeight.
Proof.
  intros Hcap Hagree.
  assert (Hpixels : quantizedPixels random2 shuffle2 imgData
                    = quantizedPixels random1 shuffle1 imgData).
  { unfold quantizedPixels, selectTraining.
    destruct (Z.ltb_spec PIXEL_SAMPLE_SIZE
                (Z.of_nat (length (vectorize imgData)))) as [Hbig|_]; [lia|].
    unfold generateCodebook.
    rewrite (kmeansLoop_agree random1 random2); [done|].
    intros j Hj. apply Hagree. unfold reseedCalls. lia. }
  split; [done|]. unfold quantize. by rewrite Hpixels.
Qed.

Lemma determinism_up_to_reseeding_witness :
  Z.of_nat (length (vectorize [10; 20; 30; 255])) <= PIXEL_SAMPLE_SIZE /\
  reseedCalls (fun _ => 0%Q) (vectorize [10; 20; 30; 255]) = 0%nat /\
  quantizedPixels (fun _ => (3 # 4)%Q) (fun l => l) [10; 20; 30; 255]
  = quantizedPixels (fun _ => 0%Q) (fun l => l) [10; 20; 30; 255].
Proof.
  assert (Hcap : Z.of_nat (length (vectorize [10; 20; 30; 255]))
                 <= PIXEL_SAMPLE_SIZE) by (vm_compute; discriminate).
  split; [exact Hcap|]. split; [reflexivity|].
  refine (proj1 (determinism_up_to_reseeding (fun _ => 0%Q)
            (fun _ => (3 # 4)%Q) (fun l => l) (fun l => l)
            (fun _ _ payload => {| url_mime := image_png;
                                   url_payload := payload |})
            {| file_size := 1000; file_type := image_jpeg |}
            {| url_mime := image_jpeg; url_payload := [] |}
            [10; 20; 30; 255] 1 1 Hcap _)).
  intros j Hj. change (j < 0)%nat in Hj. lia.
Defined.

Lemma alpha_preserved_witness :
  Forall is_byte fiveByOne /\
  fiveByOne !! 19%nat = Some 0 /\
  reconstruct [(100, 100, 100); (0, 0, 0)] fiveByOne ∅ !! 19%nat = Some 0.
Proof.
  assert (Hbytes : Forall is_byte fiveByOne).
  { unfold fiveByOne.
    repeat (apply Forall_cons; split; [unfold is_byte; lia|]).
    apply Forall_nil_2. }
  split; [exact Hbytes|]. split; [reflexivity|].
  exact (proj1 (alpha_preserved [(100, 100, 100); (0, 0, 0)] fiveByOne 4 0
                  Hbytes eq_refl)).
Defined.

(** * Further properties of the engine *)

(** ** Resize: bounds and degenerate sizes *)

(** X1. For positive native dimensions the resize never enlarges a side and
    never leaves a side above [MAX_DIMENSION]; when it scales, the shorter
    side is off from the exact proportional value by at most half a pixel. *)
Theorem resize_never_upscales (width height : Z) :
  0 < width -> 0 < height ->
  let '(w, h) := resize width height in
  0 <= w <= Z.min width MAX_DIMENSION /\
  0 <= h <= Z.min height MAX_DIMENSION /\
  (MAX_DIMENSION < Z.max width height ->
   2 * Z.abs (Z.min w h * Z.max width height
              - Z.min width height * MAX_DIMENSION)
   <= Z.max width height).
Proof.
  intros Hw Hh. unfold resize, MAX_DIMENSION.
  destruct (Z.ltb_spec height width) as [Hlt|Hle].
  - destruct (Z.ltb_spec 256 width) as [Hbig|Hsmall]; [|lia].
    rewrite (Math_round_div _ _ Hw).
    set (q := (2 * (height * 256) + width) / (2 * width)).
    assert (Hq : 2 * width * q <= 2 * (height * 256) + width
                 < 2 * width * (q + 1)).
    { subst q. pose proof (Z.mul_div_le (2 * (height * 256) + width)
                             (2 * width) ltac:(lia)).
      pose proof (Z.mul_succ_div_gt (2 * (height * 256) + width)
                    (2 * width) ltac:(lia)). lia. }
    assert (0 <= q) by (subst q; apply Z.div_pos; lia).
    assert (q <= 256) by nia.
    assert (q <= height) by nia.
    split; [lia|]. split; [lia|]. intros _.
    rewrite (Z.min_r 256 q), (Z.max_l width height),
      (Z.min_r width height) by lia. lia.
  - destruct (Z.ltb_spec 256 height) as [Hbig|Hsmall]; [|lia].
    rewrite (Math_round_div _ _ Hh).
    set (q := (2 * (width * 256) + height) / (2 * height)).
    assert (Hq : 2 * height * q <= 2 * (width * 256) + height
                 < 2 * height * (q + 1)).
    { subst q. pose proof (Z.mul_div_le (2 * (width * 256) + height)
                             (2 * height) ltac:(lia)).
      pose proof (Z.mul_succ_div_gt (2 * (width * 256) + height)
                    (2 * height) ltac:(lia)). lia. }
    assert (0 <= q) by (subst q; apply Z.div_pos; lia).
    assert (q <= 256) by nia.
    assert (q <= width) by nia.
    split; [lia|]. split; [lia|]. intros _.
    rewrite (Z.min_l q 256), (Z.max_r width height),
      (Z.min_l width height) by lia. lia.
Qed.

Lemma resize_never_upscales_witness :
  0 < 640 /\ 0 < 480 /\
  let '(w, h) := resize 640 480 in
  0 <= w <= Z.min 640 MAX_DIMENSION /\
  0 <= h <= Z.min 480 MAX_DIMENSION /\
  (MAX_DIMENSION < Z.max 640 480 ->
   2 * Z.abs (Z.min w h * Z.max 640 480 - Z.min 640 480 * MAX_DIMENSION)
   <= Z.max 640 480).
Proof.
  split; [lia|]. split; [lia|].
  exact (resize_never_upscales 640 480 ltac:(lia) ltac:(lia)).
Defined.

(** X2. For positive native dimensions, both resized dimensions are positive
    if and only if the image needs no scaling or its longer side is at most
    512 times its shorter side; otherwise the shorter side becomes 0. *)
Theorem resize_positive_iff (width height : Z) :
  0 < width -> 0 < height ->
  (0 < (resize width height).1 /\ 0 < (resize width height).2) <->
  (Z.max width height <= MAX_DIMENSION \/
   Z.max width height <= 512 * Z.min width height).
Proof.
  intros Hw Hh. unfold resize, MAX_DIMENSION.
  destruct (Z.ltb_spec height width) as [Hlt|Hle].
  - destruct (Z.ltb_spec 256 width) as [Hbig|Hsmall]; simpl; [|lia].
    rewrite (Math_round_div _ _ Hw).
    rewrite (Z.max_l width height), (Z.min_r width height) by lia.
    split.
    + intros [_ Hpos]. right.
      destruct (Z_lt_le_dec (512 * height) width) as [Hsmall|?]; [|done].
      rewrite Z.div_small in Hpos by lia. lia.
    + intros [?|Hratio]; [lia|]. split; [lia|].
      apply Z.div_str_pos. lia.
  - destruct (Z.ltb_spec 256 height) as [Hbig|Hsmall]; simpl; [|lia].
    rewrite (Math_round_div _ _ Hh).
    rewrite (Z.max_r width height), (Z.min_l width height) by lia.
    split.
    + intros [Hpos _]. right.
      destruct (Z_lt_le_dec (512 * width) height) as [Hsmall|?]; [|done].
      rewrite Z.div_small in Hpos by lia. lia.
    + intros [?|Hratio]; [lia|]. split; [|lia].
      apply Z.div_str_pos. lia.
Qed.

Lemma resize_positive_iff_witness :
  0 < 1000 /\ 0 < 2 /\
  0 < (resize 1000 2).1 /\ 0 < (resize 1000 2).2.
Proof.
  split; [lia|]. split; [lia|].
  apply (resize_positive_iff 1000 2); [lia | lia | right; vm_compute; discriminate].
Defined.

(** ** Vectorization and training-set selection *)

Lemma vectorize_elem_of (imgData : list Z) (c : color) :
  c ∈ vectorize imgData <->
  exists p a,
    imgData !! (4 * p + 0)%nat = Some (red c) /\
    imgData !! (4 * p + 1)%nat = Some (green c) /\
    imgData !! (4 * p + 2)%nat = Some (blue c) /\
    imgData !! (4 * p + 3)%nat = Some a /\ 128 < a.
Proof.
  induction imgData as [l Hshort | r g b a rest IH] using stride4_ind.
  - assert (Hnil : vectorize l = []).
    { by destruct l as [|? [|? [|? [|? ?]]]]; simpl in *; try lia. }
    rewrite Hnil. split; [by intros ?%elem_of_nil|].
    intros (p & x & _ & _ & _ & Hx & _). apply lookup_lt_Some in Hx. lia.
  - assert (Hhere : forall p' x,
              (r :: g :: b :: a :: rest) !! (4 * p' + 3)%nat = Some x ->
              p' = 0%nat /\ x = a \/
              exists p, p' = S p /\ rest !! (4 * p + 3)%nat = Some x).
    { intros [|p] x Hx; [left; simpl in Hx; by simplify_eq|].
      right. exists p. by rewrite lookup_stride4 in Hx. }
    assert (Hrest : c ∈ vectorize rest <->
              exists p x,
                (r :: g :: b :: a :: rest) !! (4 * S p + 0)%nat
                = Some (red c) /\
                (r :: g :: b :: a :: rest) !! (4 * S p + 1)%nat
                = Some (green c) /\
                (r :: g :: b :: a :: rest) !! (4 * S p + 2)%nat
                = Some (blue c) /\
                (r :: g :: b :: a :: rest) !! (4 * S p + 3)%nat = Some x /\
                128 < x).
    { rewrite IH. by setoid_rewrite lookup_stride4. }
    cbn [vectorize]. destruct (Z.ltb_spec 128 a) as [Hvis|Hinv].
    + rewrite elem_of_cons, Hrest. split.
      * intros [->|(p & x & H)]; [|by exists (S p), x].
        exists 0%nat, a. done.
      * intros ([|p] & x & Hr & Hg & Hb & Hx & Hgt).
        -- left. simpl in *. destruct c as [[cr cg] cb].
           unfold red, green, blue in *. simpl in *. by simplify_eq.
        -- right. by exists p, x.
    + rewrite Hrest. split.
      * intros (p & x & H). by exists (S p), x.
      * intros ([|p] & x & Hr & Hg & Hb & Hx & Hgt).
        -- simpl in Hx. simplify_eq. lia.
        -- by exists p, x.
Qed.

Lemma vectorize_length (imgData : list Z) :
  (4 * length (vectorize imgData) <= length imgData)%nat.
Proof.
  induction imgData as [l Hshort | r g b a rest IH] using stride4_ind.
  - by destruct l as [|? [|? [|? [|? ?]]]]; simpl in *; try lia.
  - cbn [vectorize]. destruct (128 <? a); simpl; lia.
Qed.

(** X3. The training vectors extracted from a pixel buffer are exactly the
    colours of the pixels whose alpha is strictly above 128, and there are
    at most as many of them as there are pixels. *)
Theorem vectorize_visible_pixels (imgData : list Z) :
  (forall c : color,
     c ∈ vectorize imgData <->
     exists p a,
       imgData !! (4 * p)%nat = Some (red c) /\
       imgData !! (4 * p + 1)%nat = Some (green c) /\
       imgData !! (4 * p + 2)%nat = Some (blue c) /\
       imgData !! (4 * p + 3)%nat = Some a /\ 128 < a) /\
  (4 * length (vectorize imgData) <= length imgData)%nat.
Proof.
  split; [|apply vectorize_length].
  intros c. rewrite vectorize_elem_of.
  by setoid_rewrite Nat.add_0_r.
Qed.

(** X4. The training set never holds more than [PIXEL_SAMPLE_SIZE] vectors,
    whatever order the shuffle produces; it is the list of visible pixels
    itself when that list is within the cap, and otherwise, for a shuffle
    that permutes its argument, exactly [PIXEL_SAMPLE_SIZE] vectors all taken
    from the visible pixels. *)
Theorem selectTraining_capped (shuffle : list color -> list color)
    (pixels : list color) :
  Z.of_nat (length (selectTraining shuffle pixels)) <= PIXEL_SAMPLE_SIZE /\
  (Z.of_nat (length pixels) <= PIXEL_SAMPLE_SIZE ->
   selectTraining shuffle pixels = pixels) /\
  (shuffle pixels ≡ₚ pixels ->
   PIXEL_SAMPLE_SIZE < Z.of_nat (length pixels) ->
   Z.of_nat (length (selectTraining shuffle pixels)) = PIXEL_SAMPLE_SIZE /\
   forall c, c ∈ selectTraining shuffle pixels -> c ∈ pixels).
Proof.
  unfold selectTraining, PIXEL_SAMPLE_SIZE.
  destruct (Z.ltb_spec 40000 (Z.of_nat (length pixels))) as [Hbig|Hsmall].
  - split; [rewrite length_take; lia|]. split; [lia|].
    intros Hperm _. split.
    + rewrite length_take, (Permutation_length Hperm). lia.
    + intros c Hc. rewrite <- Hperm.
      apply elem_of_take in Hc as (i & Hi & _).
      by eapply list_elem_of_lookup_2.
  - split; [lia|]. split; [done | lia].
Qed.

(** ** Colours that are already in the codebook *)

Lemma euclideanDistanceSq_nonneg (p c : color) : 0 <= euclideanDistanceSq p c.
Proof. unfold euclideanDistanceSq. nia. Qed.

Lemma euclideanDistanceSq_zero (p c : color) :
  euclideanDistanceSq p c = 0 <-> p = c.
Proof.
  destruct p as [[pr pg] pb], c as [[cr cg] cb].
  unfold euclideanDistanceSq, red, green, blue; simpl. split.
  - intros H. assert (pr = cr) by nia. assert (pg = cg) by nia.
    assert (pb = cb) by nia. by subst.
  - intros [= -> -> ->]. lia.
Qed.

Lemma nearestIndex_exact (codebook : list color) (p : color) :
  p ∈ codebook -> codebook !!! nearestIndex codebook p = p.
Proof.
  intros Hp.
  assert (Hne : codebook <> []) by (intros ->; by apply elem_of_nil in Hp).
  destruct (nearestIndex_firstMinimum codebook p Hne) as (c & Hc & Hmin & _).
  rewrite (list_lookup_total_correct _ _ _ Hc).
  apply list_elem_of_lookup in Hp as [j Hj].
  specialize (Hmin j p Hj).
  pose proof (euclideanDistanceSq_nonneg p c).
  assert (Hpp : euclideanDistanceSq p p = 0) by by apply euclideanDistanceSq_zero.
  symmetry. apply euclideanDistanceSq_zero. lia.
Qed.

(** X5. Reconstruction is idempotent: running it again on its own output,
    with the same non-empty codebook of byte colours, changes nothing. *)
Theorem reconstruct_idempotent (codebook : list color) (imgData : list Z) :
  codebook <> [] -> Forall byteColor codebook ->
  reconstruct codebook (reconstruct codebook imgData ∅) ∅
  = reconstruct codebook imgData ∅.
Proof.
  intros Hne Hbytes. rewrite !reconstruct_from_empty_cache.
  induction imgData as [l Hshort | r g b a rest IH] using stride4_ind.
  - by destruct l as [|? [|? [|? [|? ?]]]]; simpl in *; try lia.
  - cbn [reconstructNaive].
    set (c := codebook !!! nearestIndex codebook (r, g, b)).
    assert (Hc : c ∈ codebook).
    { apply list_elem_of_lookup_total_2. by apply nearestIndex_lt. }
    destruct (proj1 (Forall_forall _ _) Hbytes c Hc) as (Hr & Hg & Hb).
    rewrite !(toUint8Clamp_byte (red c)), !(toUint8Clamp_byte (green c)),
      !(toUint8Clamp_byte (blue c)) by done.
    assert (Hsame : codebook !!! nearestIndex codebook (red c, green c, blue c)
                    = c).
    { replace (red c, green c, blue c) with c by by destruct c as [[? ?] ?].
      by apply nearestIndex_exact. }
    rewrite Hsame, IH.
    rewrite !(toUint8Clamp_byte (red c)), !(toUint8Clamp_byte (green c)),
      !(toUint8Clamp_byte (blue c)) by done.
    do 3 f_equal. f_equal. unfold toUint8Clamp. lia.
Qed.

Lemma reconstruct_idempotent_witness :
  [(100, 100, 100); (0, 0, 0) : color] <> [] /\
  reconstruct [(100, 100, 100); (0, 0, 0)]
    (reconstruct [(100, 100, 100); (0, 0, 0)] fiveByOne ∅) ∅
  = reconstruct [(100, 100, 100); (0, 0, 0)] fiveByOne ∅.
Proof.
  split; [done|].
  apply (reconstruct_idempotent [(100, 100, 100); (0, 0, 0)] fiveByOne);
    [done|].
  repeat (apply Forall_cons; split;
          [unfold byteColor, is_byte, red, green, blue; simpl; lia|]).
  apply Forall_nil_2.
Defined.

(** ** Images with at most [K] visible pixels *)

Lemma sumOf_const (channel : color -> Z) (l : list color) (c : color) :
  Forall (fun q => q = c) l ->
  sumOf channel l = Z.of_nat (length l) * channel c.
Proof.
  induction 1 as [|q l -> _ IH]; simpl; [lia|].
  fold (sumOf channel l). lia.
Qed.

Lemma Math_round_div_exact (n v : Z) :
  0 < n -> Math_round (js_div (n * v) n) = v.
Proof.
  intros Hn. rewrite Math_round_div by done.
  replace (2 * (n * v) + n) with (v * (2 * n) + n) by lia.
  rewrite Z.div_add_l, Z.div_small; lia.
Qed.

(** The rounded mean of copies of one vector is that vector. *)
Lemma roundedMean_const (l : list color) (c : color) :
  l <> [] -> Forall (fun q => q = c) l -> roundedMean l = c.
Proof.
  intros Hne Hall.
  assert (Hlen : 0 < Z.of_nat (length l)) by (destruct l; simpl; [done | lia]).
  unfold roundedMean.
  rewrite !(sumOf_const _ l c Hall), !Math_round_div_exact by done.
  by destruct c as [[? ?] ?].
Qed.

(** When the codebook is the training set itself, every cluster consists of
    copies of its own entry. *)
Lemma assignedTo_own_entry (trainingPixels : list color) (i : nat) :
  Forall (fun q => q = trainingPixels !!! i)
    (assignedTo trainingPixels trainingPixels i).
Proof.
  apply Forall_forall. intros q Hq.
  apply list_elem_of_filter in Hq as [<- Hq].
  symmetry. by apply nearestIndex_exact.
Qed.

Lemma iteration_small_training (random : nat -> Q)
    (trainingPixels : list color) (calls : nat) :
  (length trainingPixels <= K)%nat ->
  let '(codebook', hasChanged, _) :=
    iteration random trainingPixels trainingPixels calls in
  hasChanged = false /\ forall p, p ∈ trainingPixels -> p ∈ codebook'.
Proof.
  intros HK.
  pose proof (iteration_spec random trainingPixels trainingPixels calls HK)
    as Hspec.
  destruct (iteration random trainingPixels trainingPixels calls)
    as [[codebook' hasChanged] calls'].
  destruct Hspec as (_ & Hmean & _ & Hch & _).
  assert (Hkeep : forall i, (i < length trainingPixels)%nat ->
            assignedTo trainingPixels trainingPixels i <> [] ->
            codebook' !! i = Some (trainingPixels !!! i)).
  { intros i Hi Hne. rewrite (Hmean i Hi Hne). f_equal.
    apply roundedMean_const; [done | apply assignedTo_own_entry]. }
  split.
  - apply not_true_iff_false. rewrite Hch.
    intros (i & c & Hc & Hne & Hd).
    pose proof (lookup_lt_Some _ _ _ Hc) as Hi.
    rewrite (roundedMean_const _ (trainingPixels !!! i) Hne
               (assignedTo_own_entry trainingPixels i)) in Hd.
    rewrite (list_lookup_total_correct _ _ _ Hc) in Hd.
    rewrite (proj2 (euclideanDistanceSq_zero c c) eq_refl) in Hd.
    by vm_compute in Hd.
  - intros p Hp.
    pose proof (nearestIndex_exact trainingPixels p Hp) as Hexact.
    assert (Hne : trainingPixels <> []).
    { intros ->. by apply elem_of_nil in Hp. }
    pose proof (nearestIndex_lt trainingPixels p Hne) as Hi.
    apply list_elem_of_lookup. exists (nearestIndex trainingPixels p).
    rewrite Hkeep, Hexact; [done | done |].
    intros Hnil.
    assert (Hin : p ∈ assignedTo trainingPixels trainingPixels
                         (nearestIndex trainingPixels p)).
    { by apply list_elem_of_filter. }
    rewrite Hnil in Hin. by apply elem_of_nil in Hin.
Qed.

Lemma small_training_set_kept_lemma (random : nat -> Q)
    (trainingPixels : list color) (p : color) :
  (length trainingPixels <= K)%nat ->
  p ∈ trainingPixels -> p ∈ generateCodebook random trainingPixels.
Proof.
  intros HK.
  pose proof (iteration_small_training random trainingPixels 0 HK) as Hit.
  unfold generateCodebook, MAX_ITERATIONS.
  rewrite take_ge by done. cbn [kmeansLoop].
  destruct (iteration random trainingPixels trainingPixels 0)
    as [[codebook' hasChanged] calls'].
  destruct Hit as [-> Hkept]. by apply Hkept.
Qed.

(** X6. When at most [K] training vectors exist, clustering runs exactly one
    iteration and every training vector is an entry of the final codebook:
    the palette loses no colour. *)
Theorem small_training_set_kept (random : nat -> Q)
    (trainingPixels : list color) :
  (length trainingPixels <= K)%nat ->
  length (clusteringTrace random trainingPixels) = 1%nat /\
  forall p, p ∈ trainingPixels -> p ∈ generateCodebook random trainingPixels.
Proof.
  intros HK.
  pose proof (iteration_small_training random trainingPixels 0 HK) as Hit.
  unfold clusteringTrace, generateCodebook, MAX_ITERATIONS.
  rewrite take_ge by done. cbn [kmeansTrace kmeansLoop].
  destruct (iteration random trainingPixels trainingPixels 0)
    as [[codebook' hasChanged] calls'].
  destruct Hit as [-> Hkept]. done.
Qed.

Lemma small_training_set_kept_witness :
  Nat.le (length [(1, 1, 1); (1, 1, 1); (2, 2, 2) : color]) K /\
  length (clusteringTrace (fun _ => (3 # 4)%Q)
            [(1, 1, 1); (1, 1, 1); (2, 2, 2)]) = 1%nat.
Proof.
  assert (H : Nat.le (length [(1, 1, 1); (1, 1, 1); (2, 2, 2) : color]) K)
    by (unfold K; simpl; lia).
  split; [exact H|].
  exact (proj1 (small_training_set_kept (fun _ => (3 # 4)%Q) _ H)).
Defined.

(** X7. An image with at most [K] visible pixels is reproduced exactly on
    its visible pixels: each pixel with alpha above 128 keeps its four
    bytes in the quantized buffer, whatever the random draws. *)
Theorem small_image_lossless (random : nat -> Q)
    (shuffle : list color -> list color) (imgData : list Z)
    (p : nat) (r g b a : Z) :
  Forall is_byte imgData ->
  (length (vectorize imgData) <= K)%nat ->
  imgData !! (4 * p)%nat = Some r ->
  imgData !! (4 * p + 1)%nat = Some g ->
  imgData !! (4 * p + 2)%nat = Some b ->
  imgData !! (4 * p + 3)%nat = Some a ->
  128 < a ->
  let out := quantizedPixels random shuffle imgData in
  out !! (4 * p)%nat = Some r /\
  out !! (4 * p + 1)%nat = Some g /\
  out !! (4 * p + 2)%nat = Some b /\
  out !! (4 * p + 3)%nat = Some a.
Proof.
  intros Hbytes HK Hr Hg Hb Ha Hvis out. subst out.
  unfold quantizedPixels, selectTraining.
  destruct (Z.ltb_spec PIXEL_SAMPLE_SIZE
              (Z.of_nat (length (vectorize imgData)))) as [Hbig|_].
  { unfold PIXEL_SAMPLE_SIZE, K in *. lia. }
  set (codebook := generateCodebook random (vectorize imgData)).
  rewrite reconstruct_from_empty_cache.
  destruct (reconstructNaive_pixel codebook imgData p a Ha)
    as (r' & g' & b' & Hr' & Hg' & Hb' & Hor & Hog & Hob & Hoa).
  rewrite Nat.add_0_r in Hr', Hor. simplify_eq.
  assert (Hin : (r, g, b) ∈ vectorize imgData).
  { apply vectorize_elem_of. exists p, a. rewrite Nat.add_0_r. done. }
  assert (Hcb : (r, g, b) ∈ codebook).
  { by apply small_training_set_kept_lemma. }
  rewrite (nearestIndex_exact codebook (r, g, b) Hcb) in Hor, Hog, Hob.
  rewrite Hor, Hog, Hob, Hoa. unfold red, green, blue; simpl.
  rewrite !toUint8Clamp_byte;
    [done | by eapply (Forall_lookup_1 _ _ _ _ Hbytes)..].
Qed.

Lemma small_image_lossless_witness :
  Forall is_byte fiveByOne /\
  Nat.le (length (vectorize fiveByOne)) K /\
  quantizedPixels (fun _ => (3 # 4)%Q) (fun l => l) fiveByOne !! 12%nat
  = Some 2.
Proof.
  assert (Hbytes : Forall is_byte fiveByOne).
  { unfold fiveByOne.
    repeat (apply Forall_cons; split; [unfold is_byte; lia|]).
    apply Forall_nil_2. }
  assert (HK : Nat.le (length (vectorize fiveByOne)) K)
    by (vm_compute; lia).
  split; [exact Hbytes|]. split; [exact HK|].
  exact (proj1 (small_image_lossless (fun _ => (3 # 4)%Q) (fun l => l)
                  fiveByOne 3 2 0 0 255 Hbytes HK eq_refl eq_refl eq_refl
                  eq_refl ltac:(lia))).
Defined.

(** ** Cost of clustering *)

Lemma updateEntry_calls_bound (random : nat -> Q)
    (trainingPixels newCodebook : list color) (counts : list Z)
    (l : list nat) (st : UpdateState) :
  ((foldl (updateEntry random trainingPixels newCodebook counts) st l).2
   <= st.2 + length l)%nat.
Proof.
  revert st. induction l as [|i l IH]; intros st; simpl; [lia|].
  etrans; [apply IH|].
  destruct st as [[codebook hasChanged] calls]. unfold updateEntry.
  destruct (positiveCount counts i); simpl; lia.
Qed.

Lemma iteration_calls_bound (random : nat -> Q)
    (trainingPixels codebook : list color) (calls : nat) :
  ((iteration random trainingPixels codebook calls).2
   <= calls + length codebook)%nat.
Proof.
  unfold iteration. destruct (accumulate _ _ _ _) as [sums counts].
  pose proof (updateEntry_calls_bound random trainingPixels sums counts
                (seq 0 (length codebook)) (codebook, false, calls)) as H.
  by rewrite length_seq in H.
Qed.

Lemma kmeansLoop_calls_bound (random : nat -> Q) (iters : nat)
    (trainingPixels codebook : list color) (calls : nat) :
  ((kmeansLoop random iters trainingPixels codebook calls).2
   <= calls + iters * length codebook)%nat.
Proof.
  revert codebook calls.
  induction iters as [|iters IH]; intros codebook calls; simpl; [lia|].
  pose proof (iteration_calls_bound random trainingPixels codebook calls)
    as Hit.
  pose proof (iteration_length random trainingPixels codebook calls) as Hlen.
  destruct (iteration random trainingPixels codebook calls)
    as [[codebook' hasChanged] calls']. simpl in Hit, Hlen.
  destruct hasChanged; simpl; [|lia].
  etrans; [apply IH|]. rewrite Hlen. lia.
Qed.

Lemma kmeansTrace_length (random : nat -> Q) (iters : nat)
    (trainingPixels codebook : list color) (calls : nat) :
  (Nat.min 1 iters
   <= length (kmeansTrace random iters trainingPixels codebook calls)
   <= iters)%nat.
Proof.
  revert codebook calls.
  induction iters as [|iters IH]; intros codebook calls; simpl; [lia|].
  destruct (iteration random trainingPixels codebook calls)
    as [[codebook' hasChanged] calls'].
  destruct hasChanged; simpl; [|lia].
  specialize (IH codebook' calls'). lia.
Qed.

(** X8. Clustering always executes at least one and at most
    [MAX_ITERATIONS] iterations, and over the whole run it calls
    [Math.random()] at most once per codebook entry and iteration, that is
    at most [MAX_ITERATIONS * min K n] times for [n] training vectors. *)
Theorem clustering_cost (random : nat -> Q) (trainingPixels : list color) :
  (1 <= length (clusteringTrace random trainingPixels) <= MAX_ITERATIONS)%nat
  /\
  (reseedCalls random trainingPixels
   <= MAX_ITERATIONS * (K `min` length trainingPixels))%nat.
Proof.
  split.
  - apply (kmeansTrace_length random MAX_ITERATIONS).
  - unfold reseedCalls.
    etrans; [apply kmeansLoop_calls_bound|].
    rewrite take_K_length. lia.
Qed.

(** ** Statistics of the result *)

(** X9. The reported reduction percentage always lies between 0 and 100,
    and it is strictly positive exactly when compression was applied. *)
Theorem reduction_percentage_range (file : File)
    (originalDataUrl vq : DataUrl) :
  let result := select file originalDataUrl vq in
  (0 <= reductionPercentage (stats result))%Q /\
  (reductionPercentage (stats result) <= 100)%Q /\
  ((0 < reductionPercentage (stats result))%Q <->
   compressionApplied result = true).
Proof.
  cbv zeta. unfold select, atob_length.
  set (v := Z.of_nat (length (url_payload vq))).
  assert (Hv : 0 <= v) by (subst v; lia).
  destruct (Z.ltb_spec v (file_size file)) as [Hlt|Hge]; simpl.
  - destruct (file_size file) as [|o|o]; try lia.
    unfold Qle, Qlt, Qdiv, Qmult, Qinv, inject_Z; simpl.
    rewrite ?Z.mul_1_r, ?Pos.mul_1_r. split; [lia|]. split; [lia|].
    split; [done | intros _; lia].
  - split; [done|]. split; [done|]. split; [by intros ?|done].
Qed.

(** ** Cache keys and nearest entries *)

(** X10. Two colour triples have the same cache key if and only if they are
    the same triple, so a cached colour is never served for another colour. *)
Theorem colorKey_distinct (r g b r' g' b' : Z) :
  colorKey r g b = colorKey r' g' b' <-> (r, g, b) = (r', g', b').
Proof.
  split.
  - intros Heq. apply colorKey_inj in Heq as (-> & -> & ->). done.
  - by intros [= -> -> ->].
Qed.

(** X11. On a non-empty codebook the search returns index [i] if and only
    if [i] is the lowest index at minimal squared distance; on an empty
    codebook it returns 0, which is then out of range. *)
Theorem nearestIndex_characterized (codebook : list color) (p : color) :
  (codebook <> [] ->
   forall i, nearestIndex codebook p = i <-> firstMinimum p codebook i) /\
  (codebook = [] ->
   nearestIndex codebook p = 0%nat /\ codebook !! 0%nat = None).
Proof.
  split.
  - intros Hne i. split.
    + intros <-. by apply nearestIndex_firstMinimum.
    + intros Hi. eapply firstMinimum_unique; [|exact Hi].
      by apply nearestIndex_firstMinimum.
  - by intros ->.
Qed.

(** ** The palette stays within the range of the training colours *)

Lemma roundedMean_inBox (lo hi : color) (l : list color) :
  l <> [] -> Forall (inBox lo hi) l -> inBox lo hi (roundedMean l).
Proof.
  intros Hne Hall.
  assert (Hlen : 0 < Z.of_nat (length l)) by (destruct l; simpl; [done | lia]).
  unfold inBox, roundedMean; simpl.
  split; [|split];
    (apply Math_round_div_bounds; [done|];
     apply sumOf_bounds; eapply Forall_impl; [exact Hall|];
     intros c (Hr & Hg & Hb); done).
Qed.

Section Preserved.

Variable random : nat -> Q.
Hypothesis random_unit : unitInterval random.
Variable trainingPixels : list color.
Hypothesis training_nonempty : trainingPixels <> [].
Variable P : color -> Prop.
Hypothesis P_mean : forall l, l <> [] -> Forall P l -> P (roundedMean l).
Hypothesis P_training : Forall P trainingPixels.

Lemma iteration_preserves (codebook : list color) (calls : nat) :
  (length codebook <= K)%nat ->
  Forall P (iteration random trainingPixels codebook calls).1.1.
Proof.
  intros HK.
  pose proof (iteration_spec random trainingPixels codebook calls HK) as Hspec.
  destruct (iteration random trainingPixels codebook calls)
    as [[codebook' hasChanged] calls']. simpl.
  destruct Hspec as (Hlen & Hmean & Hempty & _).
  apply Forall_lookup. intros i c Hc.
  pose proof (lookup_lt_Some _ _ _ Hc) as Hi. rewrite Hlen in Hi.
  destruct (decide (assignedTo codebook trainingPixels i = [])) as [Hnil|Hne].
  - destruct (Hempty i Hi Hnil) as (k & _ & Hk).
    rewrite Hk in Hc. injection Hc as <-.
    eapply Forall_forall; [exact P_training|].
    apply list_elem_of_lookup_total_2. by apply randomIndex_lt.
  - rewrite (Hmean i Hi Hne) in Hc. injection Hc as <-.
    apply P_mean; [done|]. by apply assignedTo_Forall.
Qed.

Lemma kmeansLoop_preserves (iters : nat) (codebook : list color)
    (calls : nat) :
  (length codebook <= K)%nat -> Forall P codebook ->
  Forall P (kmeansLoop random iters trainingPixels codebook calls).1.
Proof.
  revert codebook calls.
  induction iters as [|iters IH]; intros codebook calls HK HP; [done|].
  cbn [kmeansLoop].
  pose proof (iteration_preserves codebook calls HK) as Hit.
  pose proof (iteration_length random trainingPixels codebook calls) as Hlen.
  destruct (iteration random trainingPixels codebook calls)
    as [[codebook' hasChanged] calls']. simpl in Hit, Hlen.
  destruct hasChanged; [|done]. apply IH; [lia | done].
Qed.

End Preserved.

(** X12. No palette colour leaves the range of the training colours: if
    every training vector lies channel-wise between [lo] and [hi], so does
    every entry of the final codebook. *)
Theorem palette_within_training_range (random : nat -> Q)
    (trainingPixels : list color) (lo hi : color) :
  unitInterval random -> trainingPixels <> [] ->
  Forall (inBox lo hi) trainingPixels ->
  Forall (inBox lo hi) (generateCodebook random trainingPixels).
Proof.
  intros Hunit Hne Hbox. unfold generateCodebook.
  apply (kmeansLoop_preserves random Hunit trainingPixels Hne (inBox lo hi)).
  - apply roundedMean_inBox.
  - done.
  - rewrite take_K_length. lia.
  - by apply Forall_take.
Qed.

Lemma palette_within_training_range_witness :
  unitInterval (fun _ => (3 # 4)%Q) /\
  [(1, 1, 1); (1, 1, 1); (2, 2, 2) : color] <> [] /\
  Forall (inBox (1, 1, 1) (2, 2, 2))
    (generateCodebook (fun _ => (3 # 4)%Q)
       [(1, 1, 1); (1, 1, 1); (2, 2, 2)]).
Proof.
  assert (Hunit : unitInterval (fun _ => (3 # 4)%Q)) by (intros k; split; done).
  split; [exact Hunit|]. split; [done|].
  apply (palette_within_training_range _ _ (1, 1, 1) (2, 2, 2) Hunit);
    [done|].
  repeat (apply Forall_cons; split;
          [unfold inBox, red, green, blue; simpl; lia|]).
  apply Forall_nil_2.
Defined.

(** ** The mapper's choice and the clusters *)

(** X22. On a non-empty codebook of byte colours every pixel is replaced by
    a codebook colour that is at least as close to the pixel's colour, in
    squared distance, as any other entry. *)
Theorem mapped_colour_is_nearest (codebook : list color) (imgData : list Z)
    (p : nat) (r g b a : Z) :
  codebook <> [] -> Forall byteColor codebook ->
  imgData !! (4 * p)%nat = Some r ->
  imgData !! (4 * p + 1)%nat = Some g ->
  imgData !! (4 * p + 2)%nat = Some b ->
  imgData !! (4 * p + 3)%nat = Some a ->
  let out := reconstruct codebook imgData ∅ in
  exists c, c ∈ codebook /\
    out !! (4 * p)%nat = Some (red c) /\
    out !! (4 * p + 1)%nat = Some (green c) /\
    out !! (4 * p + 2)%nat = Some (blue c) /\
    forall c', c' ∈ codebook ->
      euclideanDistanceSq (r, g, b) c <= euclideanDistanceSq (r, g, b) c'.
Proof.
  intros Hne Hbytes Hr Hg Hb Ha out. subst out.
  rewrite reconstruct_from_empty_cache.
  destruct (reconstructNaive_pixel codebook imgData p a Ha)
    as (r' & g' & b' & Hr' & Hg' & Hb' & Hor & Hog & Hob & _).
  rewrite Nat.add_0_r in Hr', Hor. simplify_eq.
  destruct (nearestIndex_firstMinimum codebook (r, g, b) Hne)
    as (c & Hc & Hmin & _).
  rewrite (list_lookup_total_correct _ _ _ Hc) in Hor, Hog, Hob.
  assert (Hin : c ∈ codebook) by by eapply list_elem_of_lookup_2.
  destruct (proj1 (Forall_forall _ _) Hbytes c Hin) as (Hcr & Hcg & Hcb).
  rewrite toUint8Clamp_byte in Hor, Hog, Hob by done.
  exists c. split; [done|]. split; [done|]. split; [done|]. split; [done|].
  intros c' [j Hj]%list_elem_of_lookup. by eapply Hmin.
Qed.

Lemma mapped_colour_is_nearest_witness :
  [(100, 100, 100); (0, 0, 0) : color] <> [] /\
  exists c, c ∈ [(100, 100, 100); (0, 0, 0) : color] /\
    reconstruct [(100, 100, 100); (0, 0, 0)] fiveByOne ∅ !! 12%nat
    = Some (red c).
Proof.
  split; [done|].
  destruct (mapped_colour_is_nearest [(100, 100, 100); (0, 0, 0)] fiveByOne
              3 2 0 0 255) as (c & Hc & Hr & _); try done.
  - repeat (apply Forall_cons; split;
            [unfold byteColor, is_byte, red, green, blue; simpl; lia|]).
    apply Forall_nil_2.
  - by exists c.
Defined.

Lemma sum_indicator (g : nat -> nat) (j s n : nat) :
  sum_list (map (fun i => if decide (j = i) then S (g i) else g i) (seq s n))
  = ((if bool_decide (s <= j < s + n)%nat then 1 else 0)
     + sum_list (map g (seq s n)))%nat.
Proof.
  revert s. induction n as [|n IH]; intros s; simpl.
  - rewrite bool_decide_eq_false_2 by lia. done.
  - rewrite IH. destruct (decide (j = s)) as [->|Hne].
    + rewrite (bool_decide_eq_false_2 (S s <= s < S s + n)%nat) by lia.
      rewrite bool_decide_eq_true_2 by lia. lia.
    + destruct (bool_decide_reflect (S s <= j < S s + n)%nat).
      * rewrite bool_decide_eq_true_2 by lia. lia.
      * rewrite bool_decide_eq_false_2 by lia. lia.
Qed.

Lemma cluster_sizes_sum (f : color -> nat) (trainingPixels : list color)
    (n : nat) :
  (forall p, p ∈ trainingPixels -> (f p < n)%nat) ->
  sum_list (map (fun i => length (filter (fun p => f p = i) trainingPixels))
              (seq 0 n))
  = length trainingPixels.
Proof.
  induction trainingPixels as [|pixel tp IH]; intros Hlt.
  - simpl. induction (seq 0 n) as [|i l IHl]; simpl; [done | by rewrite IHl].
  - assert (Heq : map (fun i => length (filter (fun p => f p = i) (pixel :: tp)))
                    (seq 0 n)
                  = map (fun i => if decide (f pixel = i)
                                  then S (length (filter (fun p => f p = i) tp))
                                  else length (filter (fun p => f p = i) tp))
                      (seq 0 n)).
    { apply map_ext. intros i. rewrite filter_cons.
      by destruct (decide (f pixel = i)). }
    rewrite Heq, sum_indicator, IH.
    + pose proof (Hlt pixel ltac:(left)) as Hp.
      rewrite bool_decide_eq_true_2 by lia. done.
    + intros p Hp. apply Hlt. by right.
Qed.

(** X23. In an iteration on a non-empty codebook every training vector
    belongs to exactly one cluster: the cluster sizes over all codebook
    indices add up to the number of training vectors. *)
Theorem clusters_partition_training (codebook trainingPixels : list color) :
  codebook <> [] ->
  sum_list (map (fun i => length (assignedTo codebook trainingPixels i))
              (seq 0 (length codebook)))
  = length trainingPixels.
Proof.
  intros Hne. unfold assignedTo. apply cluster_sizes_sum.
  intros p _. by apply nearestIndex_lt.
Qed.

Lemma clusters_partition_training_witness :
  [(1, 1, 1); (1, 1, 1); (2, 2, 2) : color] <> [] /\
  sum_list (map (fun i => length (assignedTo
                                    [(1, 1, 1); (1, 1, 1); (2, 2, 2)]
                                    [(1, 1, 1); (1, 1, 1); (2, 2, 2)] i))
              (seq 0 3))
  = 3%nat.
Proof.
  split; [done|].
  exact (clusters_partition_training [(1, 1, 1); (1, 1, 1); (2, 2, 2)]
           [(1, 1, 1); (1, 1, 1); (2, 2, 2)] ltac:(done)).
Defined.

(** * Properties of the other functions *)

(** ** Validation of the bounding boxes *)

Lemma boxShaped_spec (item : JSON) :
  boxShaped item = true <-> wellFormedBox item.
Proof.
  unfold wellFormedBox. split.
  - destruct item as [| | | | |fields]; simpl; try done.
    destruct (lookupField fields "box") as [[| | | |box|]|] eqn:Hbox;
      try done.
    destruct (lookupField fields "label") as [[| | |label| |]|] eqn:Hlabel;
      try done.
    intros Hlen%bool_decide_eq_true. by exists fields, box, label.
  - intros (fields & box & label & -> & Hbox & Hlen & Hlabel). simpl.
    rewrite Hbox, Hlabel. by apply bool_decide_eq_true.
Qed.

(** The callback throws on [null] and otherwise tests the shape. *)
Lemma keepBox_spec (item : JSON) :
  keepBox item = match item with
                 | JNull => None
                 | _ => Some (boxShaped item)
                 end.
Proof.
  destruct item as [| | | | |fields]; try done.
  unfold keepBox; simpl.
  destruct (lookupField fields "box") as [[|b|n|s|box|f]|]; simpl; try done.
  - by destruct b.
  - by destruct (Qeq_bool n 0).
  - by destruct (bool_decide (s = "")).
  - by destruct (lookupField fields "label") as [[| | | | |]|],
      (bool_decide (length box = 4%nat)).
Qed.

Lemma filterBoxes_null (items : list JSON) :
  JNull ∈ items -> filterBoxes items = None.
Proof.
  induction items as [|item rest IH]; intros Hin; [by apply elem_of_nil in Hin|].
  cbn [filterBoxes]. rewrite keepBox_spec.
  apply elem_of_cons in Hin as [<-|Hin]; [done|].
  rewrite (IH Hin). by destruct item.
Qed.

Lemma filterBoxes_no_null (items : list JSON) :
  JNull ∉ items ->
  filterBoxes items = Some (filter (fun item => boxShaped item = true) items).
Proof.
  induction items as [|item rest IH]; intros Hnot; [done|].
  apply not_elem_of_cons in Hnot as [Hitem Hrest].
  cbn [filterBoxes]. rewrite keepBox_spec, (IH Hrest), filter_cons.
  assert (Hkeep : match item with
                  | JNull => None
                  | _ => Some (boxShaped item)
                  end = Some (boxShaped item)) by by destruct item.
  rewrite Hkeep. simpl.
  destruct (boxShaped item); by destruct (decide _).
Qed.

Lemma explanation_boxes_shape (parsed : option JSON) (item : JSON) :
  item ∈ getVisualExplanation parsed -> wellFormedBox item.
Proof.
  destruct parsed as [[| | | |items|]|]; simpl;
    try (by intros ?%elem_of_nil).
  destruct (filterBoxes items) as [kept|] eqn:Hkept; simpl;
    [|by intros ?%elem_of_nil].
  assert (Hnot : JNull ∉ items).
  { intros Hin. by rewrite (filterBoxes_null _ Hin) in Hkept. }
  rewrite (filterBoxes_no_null _ Hnot) in Hkept. injection Hkept as <-.
  intros [Hshape _]%list_elem_of_filter. by apply boxShaped_spec.
Qed.

(** X13. Every bounding box returned by the validation is an item of the
    parsed array and has the expected shape: an object whose [box] is an
    array of exactly four elements and whose [label] is a string. *)
Theorem explanation_boxes_well_formed (parsed : option JSON) (item : JSON) :
  item ∈ getVisualExplanation parsed ->
  wellFormedBox item /\
  exists items, parsed = Some (JArray items) /\ item ∈ items.
Proof.
  destruct parsed as [[| | | |items|]|]; simpl;
    try (by intros ?%elem_of_nil).
  destruct (filterBoxes items) as [kept|] eqn:Hkept; simpl;
    [|by intros ?%elem_of_nil].
  assert (Hnot : JNull ∉ items).
  { intros Hin. by rewrite (filterBoxes_null _ Hin) in Hkept. }
  rewrite (filterBoxes_no_null _ Hnot) in Hkept. injection Hkept as <-.
  intros [Hshape Hin]%list_elem_of_filter.
  split; [by apply boxShaped_spec|]. by exists items.
Qed.

Lemma explanation_boxes_well_formed_witness :
  let item :=
    JObject [("box", JArray [JNumber 0; JNumber 0; JNumber 1; JNumber 1]);
             ("label", JString "Necrotic Lesion")] in
  item ∈ getVisualExplanation (Some (JArray [JNumber 7; item])) /\
  wellFormedBox item.
Proof.
  cbv zeta.
  assert (Hin : JObject
                  [("box", JArray [JNumber 0; JNumber 0; JNumber 1; JNumber 1]);
                   ("label", JString "Necrotic Lesion")]
                ∈ getVisualExplanation
                    (Some (JArray
                       [JNumber 7;
                        JObject
                          [("box", JArray [JNumber 0; JNumber 0; JNumber 1;
                                           JNumber 1]);
                           ("label", JString "Necrotic Lesion")]]))).
  { apply list_elem_of_here. }
  split; [exact Hin|].
  exact (proj1 (explanation_boxes_well_formed _ _ Hin)).
Defined.

(** X14. The validation is all or nothing on [null]: if the parsed array
    contains a [null] element the callback throws and no box at all is
    returned; if it contains none, exactly the well-shaped items are
    returned, in their order; and anything that is not an array, or a
    response that does not parse, gives no box. *)
Theorem explanation_all_or_nothing :
  (forall items, JNull ∈ items ->
     getVisualExplanation (Some (JArray items)) = []) /\
  (forall items, JNull ∉ items ->
     getVisualExplanation (Some (JArray items))
     = filter (fun item => boxShaped item = true) items) /\
  (forall parsed, (forall items, parsed <> Some (JArray items)) ->
     getVisualExplanation parsed = []).
Proof.
  split; [|split].
  - intros items Hin. simpl. by rewrite (filterBoxes_null _ Hin).
  - intros items Hnot. simpl. by rewrite (filterBoxes_no_null _ Hnot).
  - intros [[| | | |items|]|] Hnot; try done. by destruct (Hnot items).
Qed.

(** X15. Validating an already validated list returns it unchanged. *)
Theorem explanation_validation_idempotent (parsed : option JSON) :
  getVisualExplanation (Some (JArray (getVisualExplanation parsed)))
  = getVisualExplanation parsed.
Proof.
  set (boxes := getVisualExplanation parsed).
  assert (Hall : Forall (fun item => boxShaped item = true) boxes).
  { apply Forall_forall. intros item Hin.
    apply boxShaped_spec. by apply (explanation_boxes_shape parsed). }
  assert (Hnot : JNull ∉ boxes).
  { intros Hin. by apply (proj1 (Forall_forall _ _) Hall) in Hin. }
  simpl. rewrite (filterBoxes_no_null _ Hnot). simpl.
  clear Hnot. induction Hall as [|item rest Hitem _ IH]; [done|].
  rewrite filter_cons. destruct (decide _); [by rewrite IH | done].
Qed.

(** ** Theme *)

(** X16. Whatever string the theme state holds (the stored value is read
    back unchecked), one toggle yields ['light'] or ['dark']; toggling twice
    gives the theme back exactly when it was one of these two; and a toggled
    theme, once stored, is the one the initializer returns on the next load,
    whatever the system preference. *)
Theorem theme_toggle_alternates (theme : string) :
  (toggleTheme theme = "light" \/ toggleTheme theme = "dark") /\
  (toggleTheme (toggleTheme theme) = theme <->
   theme = "light" \/ theme = "dark") /\
  (forall prefersDark,
     initialTheme (Some (toggleTheme theme)) prefersDark = toggleTheme theme).
Proof.
  unfold toggleTheme.
  destruct (bool_decide_reflect (theme = "dark")) as [->|Hne]; simpl.
  - split; [by left|]. split; [split; [by right | done]|]. done.
  - split; [by right|]. split; [|done].
    split; [intros <-; by left | by intros [->| ->]].
Qed.

(** ** The upload handler *)

Section HandlerProperties.

Variable typeErrorMessage : string.
Variables (st : AppState) (file : UploadedFile).
Variables (originalRead : option DataUrl) (compression : Outcome).
Variables (analysis : JSON + Thrown) (explanation : option (option JSON)).

Let final : AppState :=
  handleFileSelect typeErrorMessage st file originalRead compression
    analysis explanation.

Lemma notHealthy_spec (name : option JSON) :
  notHealthy name = false <-> name = Some (JString "Healthy").
Proof.
  destruct name as [[| | |s| |]|]; simpl; try (split; done).
  rewrite negb_false_iff, bool_decide_eq_true. split; congruence.
Qed.

(** X17. A file whose type does not start with [image/] only sets the error
    message: loading does not start, and the images, statistics, analysis
    and boxes of the previous upload stay in the state, so a results panel
    that was shown stays shown. *)
Theorem invalid_type_keeps_previous_results :
  String.prefix "image/" (upload_type file) = false ->
  errorMessage final = Some "Invalid file type. Please upload an image." /\
  isLoading final = isLoading st /\
  isLoadingExplanation final = isLoadingExplanation st /\
  originalImage final = originalImage st /\
  processedImage final = processedImage st /\
  compressionStats final = compressionStats st /\
  analysisResult final = analysisResult st /\
  visualExplanation final = visualExplanation st /\
  compressionAppliedState final = compressionAppliedState st /\
  showResults final = showResults st.
Proof.
  intros Htype. subst final. unfold handleFileSelect. by rewrite Htype.
Qed.

(** X18. For an image file, once every asynchronous step has settled both
    loading flags are off, whichever step failed. *)
Theorem handler_stops_loading :
  String.prefix "image/" (upload_type file) = true ->
  isLoading final = false /\ isLoadingExplanation final = false.
Proof.
  intros Htype. subst final. unfold handleFileSelect. rewrite Htype. simpl.
  destruct originalRead, compression as [r|e]; simpl; try done;
    destruct analysis as [result|thrown]; simpl; try done;
    destruct (readDiseaseName result) as [name|]; simpl; try done;
    destruct (notHealthy name); simpl; try done;
    by destruct explanation.
Qed.

(** X19. For an image file an error message is shown if and only if the
    compression rejects, the analysis throws, or the disease name cannot be
    read from the analysis; a failure of the visual explanation is never
    reported.  When the compression rejects or the analysis throws, the
    results panel is not rendered. *)
Theorem error_reported_iff_failure :
  String.prefix "image/" (upload_type file) = true ->
  (errorMessage final = None <->
   exists r result name,
     compression = Resolved r /\ analysis = inl result /\
     readDiseaseName result = Some name) /\
  ((exists e, compression = Rejected e) \/ (exists thrown, analysis = inr thrown)
   -> showResults final = false).
Proof.
  intros Htype. subst final. unfold handleFileSelect. rewrite Htype. simpl.
  split.
  - destruct compression as [r|e].
    + destruct analysis as [result|thrown].
      * destruct (readDiseaseName result) as [name|] eqn:Hname.
        -- split; [intros _; by exists r, result, name|]. intros _.
           destruct originalRead, (notHealthy name); simpl; try done;
             by destruct explanation.
        -- split; [by destruct originalRead|].
           intros (? & ? & ? & _ & [= <-] & ?). congruence.
      * split; [by destruct originalRead|]. intros (? & ? & ? & _ & ? & _).
        done.
    + split; [by destruct originalRead|]. intros (? & ? & ? & ? & _). done.
  - intros [[e ->]|[thrown ->]].
    + by destruct originalRead.
    + destruct compression; by destruct originalRead.
Qed.

(** X20. The boxes stored for the overlay are requested only when the
    disease name read from the analysis is not the string ['Healthy'], and
    every stored box is well formed. *)
Theorem explanation_only_for_disease (boxes : list JSON) :
  String.prefix "image/" (upload_type file) = true ->
  visualExplanation final = Some boxes ->
  Forall wellFormedBox boxes /\
  exists result name,
    analysis = inl result /\ readDiseaseName result = Some name /\
    name <> Some (JString "Healthy").
Proof.
  intros Htype. subst final. unfold handleFileSelect. rewrite Htype. simpl.
  destruct compression as [r|e]; [|by destruct originalRead].
  destruct analysis as [result|thrown]; [|by destruct originalRead].
  destruct (readDiseaseName result) as [name|] eqn:Hname;
    [|by destruct originalRead].
  destruct (notHealthy name) eqn:Hhealthy; [|by destruct originalRead].
  destruct explanation as [parsed|]; [|by destruct originalRead].
  intros Hboxes.
  assert (Heq : boxes = getVisualExplanation parsed)
    by (destruct originalRead; simpl in Hboxes; congruence).
  split.
  - subst boxes. apply Forall_forall. intros item Hin.
    by apply (explanation_boxes_shape parsed).
  - exists result, name. split; [done|]. split; [done|].
    intros Hh%notHealthy_spec. congruence.
Qed.

End HandlerProperties.

Lemma invalid_type_keeps_previous_results_witness :
  String.prefix "image/" "text/plain" = false /\
  isLoading
    (handleFileSelect "TypeError" initialState
       {| upload_name := "notes.txt"; upload_type := "text/plain" |}
       None (Rejected FailedToLoadImage) (inr OtherValue) None)
  = isLoading initialState.
Proof.
  split; [reflexivity|].
  exact (proj1 (proj2 (invalid_type_keeps_previous_results "TypeError"
                         initialState
                         {| upload_name := "notes.txt";
                            upload_type := "text/plain" |}
                         None (Rejected FailedToLoadImage) (inr OtherValue)
                         None eq_refl))).
Defined.

Lemma handler_stops_loading_witness :
  String.prefix "image/" "image/png" = true /\
  isLoading
    (handleFileSelect "TypeError" initialState
       {| upload_name := "leaf.png"; upload_type := "image/png" |}
       None (Rejected FailedToLoadImage) (inr OtherValue) None)
  = false.
Proof.
  split; [reflexivity|].
  exact (proj1 (handler_stops_loading "TypeError" initialState
                  {| upload_name := "leaf.png"; upload_type := "image/png" |}
                  None (Rejected FailedToLoadImage) (inr OtherValue) None
                  eq_refl)).
Defined.

Lemma error_reported_iff_failure_witness :
  String.prefix "image/" "image/png" = true /\
  showResults
    (handleFileSelect "TypeError" initialState
       {| upload_name := "leaf.png"; upload_type := "image/png" |}
       None (Rejected FailedToLoadImage) (inr OtherValue) None)
  = false.
Proof.
  split; [reflexivity|].
  apply (error_reported_iff_failure "TypeError" initialState
           {| upload_name := "leaf.png"; upload_type := "image/png" |}
           None (Rejected FailedToLoadImage) (inr OtherValue) None eq_refl).
  left. by exists FailedToLoadImage.
Defined.

Lemma explanation_only_for_disease_witness :
  let result :=
    JObject [("diagnosis", JObject [("diseaseName", JString "Rust")])] in
  let vq :=
    {| finalDataUrl := {| url_mime := image_png; url_payload := [] |};
       stats := {| originalSize := 10; compressedSize := 0;
                   reductionPercentage := 100 |};
       mimeType := image_png;
       compressionApplied := true |} in
  String.prefix "image/" "image/png" = true /\
  visualExplanation
    (handleFileSelect "TypeError" initialState
       {| upload_name := "leaf.png"; upload_type := "image/png" |}
       None (Resolved vq) (inl result) (Some (Some (JArray []))))
  = Some [] /\
  exists name, readDiseaseName result = Some name /\
    name <> Some (JString "Healthy").
Proof.
  cbv zeta. split; [reflexivity|]. split; [reflexivity|].
  destruct (explanation_only_for_disease "TypeError" initialState
              {| upload_name := "leaf.png"; upload_type := "image/png" |}
              None
              (Resolved
                 {| finalDataUrl := {| url_mime := image_png;
                                       url_payload := [] |};
                    stats := {| originalSize := 10; compressedSize := 0;
                                reductionPercentage := 100 |};
                    mimeType := image_png;
                    compressionApplied := true |})
              (inl (JObject [("diagnosis",
                              JObject [("diseaseName", JString "Rust")])]))
              (Some (Some (JArray []))) [] eq_refl eq_refl)
    as (_ & result & name & [= <-] & Hname & Hne).
  by exists name.
Defined.

(** X21. An image without any pixel of alpha above 128 ends, through the
    rejection of the compression, in the message of that rejection wrapped
    by the handler; nothing is stored as processed image, the results panel
    stays hidden and loading stops. *)
Theorem empty_image_reported (typeErrorMessage : string) (st : AppState)
    (upload : UploadedFile) (originalRead : option DataUrl)
    (random : nat -> Q) (shuffle : list color -> list color)
    (toDataURL : Z -> Z -> list Z -> DataUrl) (file : File)
    (originalDataUrl : DataUrl) (imgData : list Z) (imgWidth imgHeight : Z)
    (analysis : JSON + Thrown) (explanation : option (option JSON)) :
  String.prefix "image/" (upload_type upload) = true ->
  (forall p a, imgData !! (4 * p + 3)%nat = Some a -> a <= 128) ->
  let final :=
    handleFileSelect typeErrorMessage st upload originalRead
      (quantize random shuffle toDataURL file originalDataUrl imgData
         imgWidth imgHeight)
      analysis explanation in
  errorMessage final
  = Some ("An error occurred: Image appears to be empty or fully "
          +:+ "transparent.. Please try again with a different image.") /\
  processedImage final = None /\
  showResults final = false /\
  isLoading final = false.
Proof.
  intros Htype Hempty%vectorize_nil_iff. cbv zeta.
  unfold quantize, handleFileSelect. rewrite Hempty, Htype. simpl.
  by destruct originalRead.
Qed.

Lemma empty_image_reported_witness :
  String.prefix "image/" "image/png" = true /\
  processedImage
    (handleFileSelect "TypeError" initialState
       {| upload_name := "leaf.png"; upload_type := "image/png" |} None
       (quantize (fun _ => 0%Q) (fun l => l)
          (fun _ _ payload => {| url_mime := image_png;
                                 url_payload := payload |})
          {| file_size := 100; file_type := image_png |}
          {| url_mime := image_png; url_payload := [] |}
          [1; 0; 0; 0] 1 1)
       (inr OtherValue) None)
  = None.
Proof.
  split; [reflexivity|].
  refine (proj1 (proj2 (empty_image_reported "TypeError" initialState
            {| upload_name := "leaf.png"; upload_type := "image/png" |} None
            (fun _ => 0%Q) (fun l => l)
            (fun _ _ payload => {| url_mime := image_png;
                                   url_payload := payload |})
            {| file_size := 100; file_type := image_png |}
            {| url_mime := image_png; url_payload := [] |}
            [1; 0; 0; 0] 1 1 (inr OtherValue) None eq_refl _))).
  intros [|p] a Ha.
  - simpl in Ha. injection Ha as <-. lia.
  - apply lookup_lt_Some in Ha. simpl in Ha. lia.
Defined.
